(** * Word and grapheme statistics of the code editor

    A shallow embedding of [CodeEditor::updateStats] (src/main.cpp) and of
    the library calls it is built from: the conversion of the editor text
    to UTF-8, to a NUL-terminated [std::string] and to an ICU
    [UnicodeString], the two ICU break iterators, the two counting loops
    and the status-bar message. *)

From Stdlib Require Import ZArith Bool Lia String Ascii DecimalString List.
From Stdlib Require DecimalZ DecimalPos.
Import ListNotations.
Local Open Scope Z_scope.

(** ** Text: scalar values, UTF-8 bytes, UTF-16 code units *)

(** The editor text.  A [QString] holds UTF-16; the text of the editor is
    valid Unicode, so it is represented by its sequence of scalar values
    (predicate [is_scalar]); anything else in the list stands for an
    unpaired surrogate, which [toUtf8] replaces by U+FFFD as Qt does. *)
Definition QString := list Z.

(** Bytes of a [QByteArray] or [std::string], each in 0..255. *)
Definition QByteArray := list Z.

(** UTF-16 code units of an [icu::UnicodeString]. *)
Definition UnicodeString := list Z.

Definition in_range (lo hi x : Z) : bool := (lo <=? x) && (x <=? hi).

Definition is_surrogate (c : Z) : bool := in_range 0xD800 0xDFFF c.

Definition is_scalar (c : Z) : bool :=
  in_range 0 0x10FFFF c && negb (is_surrogate c).

Definition REPLACEMENT : Z := 0xFFFD.

(** Continuation byte [10xxxxxx] carrying the low six bits of [x]. *)
Definition trail (x : Z) : Z := Z.lor 0x80 (Z.land x 0x3F).

Definition utf8_bytes (c : Z) : list Z :=
  if c <? 0x80 then [c]
  else if c <? 0x800 then
    [Z.lor 0xC0 (Z.shiftr c 6); trail c]
  else if c <? 0x10000 then
    [Z.lor 0xE0 (Z.shiftr c 12); trail (Z.shiftr c 6); trail c]
  else
    [Z.lor 0xF0 (Z.shiftr c 18); trail (Z.shiftr c 12);
     trail (Z.shiftr c 6); trail c].

(** [QString::toUtf8]. *)
Definition toUtf8 (text : QString) : QByteArray :=
  flat_map (fun c => utf8_bytes (if is_scalar c then c else REPLACEMENT)) text.

(** [std::string utf8 = text.toUtf8().constData();]
    [constData] yields a [const char *]; the [std::string] constructor
    taking a [const char *] copies the bytes in front of the first NUL. *)
Fixpoint c_str (bytes : list Z) : list Z :=
  match bytes with
  | [] => []
  | b :: rest => if b =? 0 then [] else b :: c_str rest
  end.

Definition is_trail (b : Z) : bool := in_range 0x80 0xBF b.

(** Range of the second byte after lead byte [b0] (Unicode, table 3-7). *)
Definition second_ok (b0 b1 : Z) : bool :=
  if b0 =? 0xE0 then in_range 0xA0 0xBF b1
  else if b0 =? 0xED then in_range 0x80 0x9F b1
  else if b0 =? 0xF0 then in_range 0x90 0xBF b1
  else if b0 =? 0xF4 then in_range 0x80 0x8F b1
  else is_trail b1.

Definition low6 (b : Z) : Z := Z.land b 0x3F.

Definition cp2 (b0 b1 : Z) : Z :=
  Z.lor (Z.shiftl (Z.land b0 0x1F) 6) (low6 b1).

Definition cp3 (b0 b1 b2 : Z) : Z :=
  Z.lor (Z.shiftl (Z.land b0 0x0F) 12)
        (Z.lor (Z.shiftl (low6 b1) 6) (low6 b2)).

Definition cp4 (b0 b1 b2 b3 : Z) : Z :=
  Z.lor (Z.shiftl (Z.land b0 0x07) 18)
        (Z.lor (Z.shiftl (low6 b1) 12)
               (Z.lor (Z.shiftl (low6 b2) 6) (low6 b3))).

(** Code points of a UTF-8 byte string; every maximal ill-formed
    subsequence yields one U+FFFD, as ICU's [U8_NEXT_OR_FFFD] does. *)
Fixpoint utf8_decode (bytes : list Z) : list Z :=
  match bytes with
  | [] => []
  | b0 :: r =>
    if b0 <? 0x80 then b0 :: utf8_decode r
    else if in_range 0xC2 0xDF b0 then
      match r with
      | b1 :: r1 =>
        if is_trail b1 then cp2 b0 b1 :: utf8_decode r1
        else REPLACEMENT :: utf8_decode r
      | [] => [REPLACEMENT]
      end
    else if in_range 0xE0 0xEF b0 then
      match r with
      | b1 :: r1 =>
        if second_ok b0 b1 then
          match r1 with
          | b2 :: r2 =>
            if is_trail b2 then cp3 b0 b1 b2 :: utf8_decode r2
            else REPLACEMENT :: utf8_decode r1
          | [] => [REPLACEMENT]
          end
        else REPLACEMENT :: utf8_decode r
      | [] => [REPLACEMENT]
      end
    else if in_range 0xF0 0xF4 b0 then
      match r with
      | b1 :: r1 =>
        if second_ok b0 b1 then
          match r1 with
          | b2 :: r2 =>
            if is_trail b2 then
              match r2 with
              | b3 :: r3 =>
                if is_trail b3 then cp4 b0 b1 b2 b3 :: utf8_decode r3
                else REPLACEMENT :: utf8_decode r2
              | [] => [REPLACEMENT]
              end
            else REPLACEMENT :: utf8_decode r1
          | [] => [REPLACEMENT]
          end
        else REPLACEMENT :: utf8_decode r
      | [] => [REPLACEMENT]
      end
    else REPLACEMENT :: utf8_decode r
  end.

(** UTF-16 form of one code point: itself, or a surrogate pair. *)
Definition utf16_units (c : Z) : list Z :=
  if c <? 0x10000 then [c]
  else [0xD800 + Z.shiftr (c - 0x10000) 10;
        0xDC00 + Z.land (c - 0x10000) 0x3FF].

Definition utf16 (cps : list Z) : UnicodeString := flat_map utf16_units cps.

(** [icu::UnicodeString::fromUTF8]. *)
Definition fromUTF8 (utf8 : list Z) : UnicodeString :=
  utf16 (utf8_decode utf8).

(** The scalar values in front of the first U+0000. *)
Fixpoint before_nul (text : QString) : QString :=
  match text with
  | [] => []
  | c :: rest => if c =? 0 then [] else c :: before_nul rest
  end.

(** Offsets (in code units) just behind each code point of [u], counted
    from [base]: the positions at which a break iterator may stop. *)
Fixpoint code_point_ends (base : nat) (u : UnicodeString) : list nat :=
  match u with
  | [] => []
  | hi :: rest =>
    match rest with
    | lo :: rest' =>
      if in_range 0xD800 0xDBFF hi && in_range 0xDC00 0xDFFF lo
      then (base + 2)%nat :: code_point_ends (base + 2) rest'
      else (base + 1)%nat :: code_point_ends (base + 1) rest
    | [] => [(base + 1)%nat]
    end
  end.

(** ** The ICU break-iterator interface

    ICU is linked, not part of the repository: the rule sets it loads are
    taken as data ([Library]), and the iterator protocol the code drives
    ([setText], [first], [next], [getRuleStatus]) is modelled as explicit
    state passing. *)
Module ICU.

Definition UErrorCode := Z.
Definition U_USING_DEFAULT_WARNING : UErrorCode := -127.
Definition U_ZERO_ERROR : UErrorCode := 0.
Definition U_MISSING_RESOURCE_ERROR : UErrorCode := 2.
Definition U_MEMORY_ALLOCATION_ERROR : UErrorCode := 7.

(** [U_SUCCESS(x)] is [x <= U_ZERO_ERROR]: warnings are negative. *)
Definition U_SUCCESS (x : UErrorCode) : bool := x <=? U_ZERO_ERROR.
Definition U_FAILURE (x : UErrorCode) : bool := x >? U_ZERO_ERROR.

Definition Locale := string.

(** [BreakIterator::DONE]. *)
Definition DONE : Z := -1.

(** Rule status tags of word boundaries (ubrk.h). *)
Definition UBRK_WORD_NONE : Z := 0.
Definition UBRK_WORD_NUMBER : Z := 100.
Definition UBRK_WORD_LETTER : Z := 200.
Definition UBRK_WORD_KANA : Z := 300.
Definition UBRK_WORD_IDEO : Z := 400.

(** A compiled rule set: for a text, the boundaries behind offset 0 in
    the order [next] reports them, each with the rule status of the
    segment it closes. *)
Definition Rules := UnicodeString -> list (nat * Z).

Record BreakIterator := mkIter {
  rules : Rules;
  text : UnicodeString;
  pending : list (nat * Z);   (* boundaries not yet reported *)
  ruleStatus : Z              (* status of the boundary last reported *)
}.

Definition instantiate (r : Rules) : BreakIterator :=
  mkIter r [] (r []) 0.

Definition setText (it : BreakIterator) (u : UnicodeString) : BreakIterator :=
  mkIter (rules it) u (rules it u) 0.

(** [first()] moves to the start of the text and returns offset 0. *)
Definition first (it : BreakIterator) : Z * BreakIterator :=
  (0, mkIter (rules it) (text it) (rules it (text it)) 0).

(** [next()] reports the following boundary, or [DONE] when the end of
    the text was reached, in which case the iterator stays put. *)
Definition next (it : BreakIterator) : Z * BreakIterator :=
  match pending it with
  | [] => (DONE, it)
  | (b, tag) :: rest => (Z.of_nat b, mkIter (rules it) (text it) rest tag)
  end.

Definition getRuleStatus (it : BreakIterator) : Z := ruleStatus it.

(** What is installed: the process default locale and, per locale, the
    outcome of loading the word and the character rule sets (the error
    code and the instance, null when absent). *)
Record Library := mkLibrary {
  getDefault : Locale;
  wordInstance : Locale -> UErrorCode * option Rules;
  characterInstance : Locale -> UErrorCode * option Rules
}.

(** Factory convention of ICU: a call entered with a failure code does
    nothing and returns null; otherwise the code is overwritten. *)
Definition create (load : Locale -> UErrorCode * option Rules)
    (loc : Locale) (status : UErrorCode) : option BreakIterator * UErrorCode :=
  if U_FAILURE status then (None, status)
  else let (code, r) := load loc in (option_map instantiate r, code).

Definition createWordInstance (icu : Library) :=
  create (wordInstance icu).

Definition createCharacterInstance (icu : Library) :=
  create (characterInstance icu).

End ICU.
Import ICU.

(** ** [CodeEditor::updateStats] *)

Notation "x <- c1 ;; c2" :=
  (match c1 with Some x => c2 | None => None end)
  (at level 61, c1 at next level, right associativity).

Notation "' p <- c1 ;; c2" :=
  (match c1 with Some p => c2 | None => None end)
  (at level 61, p pattern, c1 at next level, right associativity).

(** [while ((end = wordIter->next()) != DONE) { if (getRuleStatus() != UBRK_WORD_NONE) ++wordCount; }]
    [None] when the fuel runs out before [next] reports [DONE]. *)
Fixpoint word_loop (fuel : nat) (wordIter : BreakIterator) (wordCount : Z)
    : option Z :=
  match fuel with
  | O => None
  | S fuel' =>
    let (end_, wordIter) := next wordIter in
    if negb (end_ =? DONE) then
      let ruleStatus := getRuleStatus wordIter in
      word_loop fuel' wordIter
        (if negb (ruleStatus =? UBRK_WORD_NONE) then wordCount + 1
         else wordCount)
    else Some wordCount
  end.

(** [for (; end != DONE; start = end, end = charIter->next()) ++graphemes;] *)
Fixpoint grapheme_loop (fuel : nat) (charIter : BreakIterator)
    (start end_ : Z) (graphemes : Z) : option Z :=
  match fuel with
  | O => None
  | S fuel' =>
    if negb (end_ =? DONE) then
      let graphemes := graphemes + 1 in
      let start := end_ in
      let (end_, charIter) := next charIter in
      grapheme_loop fuel' charIter start end_ graphemes
    else Some graphemes
  end.

(** Loop variant: every round consumes one pending boundary.  The two
    counters are C [int]s, kept here in [Z]: under the boundary contract
    they stay within the range of [int] (lemma [counts_fit_int]). *)
Definition variant (it : BreakIterator) : nat := S (length (pending it)).

(** Lines 154-167: [wordCount], with the guard
    [U_SUCCESS(status) && wordIter] around the loop. *)
Definition count_words (wordIter : option BreakIterator)
    (status : UErrorCode) (utext : UnicodeString) : option Z :=
  let wordCount := 0 in
  match U_SUCCESS status, wordIter with
  | true, Some wordIter =>
    let wordIter := setText wordIter utext in
    let (_, wordIter) := first wordIter in
    word_loop (variant wordIter) wordIter wordCount
  | _, _ => Some wordCount
  end.

(** Lines 174-181: [graphemes], with the guard
    [U_SUCCESS(status) && charIter] around the loop. *)
Definition count_graphemes (charIter : option BreakIterator)
    (status : UErrorCode) (utext : UnicodeString) : option Z :=
  let graphemes := 0 in
  match U_SUCCESS status, charIter with
  | true, Some charIter =>
    let charIter := setText charIter utext in
    let (start, charIter) := first charIter in
    let fuel := variant charIter in
    let (end_, charIter) := next charIter in
    grapheme_loop fuel charIter start end_ graphemes
  | _, _ => Some graphemes
  end.

(** Lines 142-181: the locals [wordCount] and [graphemes] when line 183
    is reached. *)
Definition stats (icu : Library) (text : QString) : option (Z * Z) :=
  let utf8 := c_str (toUtf8 text) in
  let utext := fromUTF8 utf8 in
  let status := U_ZERO_ERROR in
  let (wordIter, status) := createWordInstance icu (getDefault icu) status in
  wordCount <- count_words wordIter status utext ;;
  let status := U_ZERO_ERROR in
  let (charIter, status) :=
    createCharacterInstance icu (getDefault icu) status in
  graphemes <- count_graphemes charIter status utext ;;
  Some (wordCount, graphemes).

(** Lines 142-146 alone: the text handed to both iterators. *)
Definition utext_of (text : QString) : UnicodeString :=
  let utf8 := c_str (toUtf8 text) in
  fromUTF8 utf8.

Definition decimal (n : Z) : string := NilZero.string_of_int (Z.to_int n).

(** [QString("Words: %1 | Characters: %2").arg(wordCount).arg(graphemes)] *)
Definition message (wordCount graphemes : Z) : string :=
  ("Words: " ++ decimal wordCount ++ " | Characters: " ++ decimal graphemes)%string.

(** The members of the window that the slots read or write. *)
Record CodeEditor := mkEditor {
  editor_text : QString;       (* editor->text() *)
  editor_modified : bool;      (* editor->isModified() *)
  currentFile : string;
  statusBar : string           (* statusBar()->currentMessage() *)
}.

Definition showMessage (w : CodeEditor) (msg : string) : CodeEditor :=
  mkEditor (editor_text w) (editor_modified w) (currentFile w) msg.

Definition updateStats (icu : Library) (w : CodeEditor) : option CodeEditor :=
  let text := editor_text w in
  '(wordCount, graphemes) <- stats icu text ;;
  Some (showMessage w (message wordCount graphemes)).

(** ** Reference rule sets

    The rule sets themselves live in ICU's data, not in src.  To have an
    installation to run [updateStats] on, this module gives rule sets in
    the manner of Unicode Standard Annex 29, with excerpts of the
    property tables: grapheme rules GB3-GB13 and word rules WB3-WB16.
    Dictionary-based word breaking is not part of it: Han and Hiragana
    characters are one segment each.  A character outside the excerpts
    falls in the class of all others (a Georgian or a Thai letter makes a
    non-word segment, U+05C1 or U+0E31 a cluster of its own) and rule
    GB9c on Indic conjuncts is left out: on such texts these rule sets
    differ from ICU's.  They are run here on Latin text, spaces,
    punctuation, U+0000, combining marks of U+0300-U+036F and emoji
    joined by U+200D, which the excerpts cover. *)
Module UAX29.

Definition in_any (ranges : list (Z * Z)) (c : Z) : bool :=
  existsb (fun r => in_range (fst r) (snd r) c) ranges.

(** Code points of a UTF-16 text, each with its number of code units. *)
Fixpoint code_points (u : UnicodeString) : list (Z * nat) :=
  match u with
  | [] => []
  | hi :: rest =>
    match rest with
    | lo :: rest' =>
      if in_range 0xD800 0xDBFF hi && in_range 0xDC00 0xDFFF lo
      then (0x10000 + (hi - 0xD800) * 0x400 + (lo - 0xDC00), 2%nat)
             :: code_points rest'
      else (hi, 1%nat) :: code_points rest
    | [] => [(hi, 1%nat)]
    end
  end.

Definition extend_ranges : list (Z * Z) :=
  [(0x300, 0x36F); (0x483, 0x489); (0x591, 0x5BD); (0x610, 0x61A);
   (0x64B, 0x65F); (0x93C, 0x93C); (0x941, 0x948); (0x94D, 0x94D);
   (0x1AB0, 0x1AFF); (0x1DC0, 0x1DFF); (0x200C, 0x200C);
   (0x20D0, 0x20FF); (0x3099, 0x309A); (0xFE00, 0xFE0F);
   (0xFE20, 0xFE2F); (0x1F3FB, 0x1F3FF); (0xE0020, 0xE007F);
   (0xE0100, 0xE01EF)].

Definition spacing_mark_ranges : list (Z * Z) :=
  [(0x903, 0x903); (0x93B, 0x93B); (0x93E, 0x940); (0x949, 0x94C);
   (0xE33, 0xE33); (0xEB3, 0xEB3)].

Definition pictographic_ranges : list (Z * Z) :=
  [(0xA9, 0xA9); (0xAE, 0xAE); (0x203C, 0x203C); (0x2049, 0x2049);
   (0x2122, 0x2122); (0x2139, 0x2139); (0x2194, 0x2199);
   (0x231A, 0x231B); (0x2600, 0x27BF); (0x1F000, 0x1F0FF);
   (0x1F300, 0x1F3FA); (0x1F400, 0x1F64F); (0x1F680, 0x1F6FF);
   (0x1F900, 0x1F9FF); (0x1FA70, 0x1FAFF)].

Definition format_ranges : list (Z * Z) :=
  [(0xAD, 0xAD); (0x200E, 0x200F); (0x202A, 0x202E); (0x2060, 0x2064);
   (0xFEFF, 0xFEFF)].

(** *** Grapheme clusters *)

Inductive GCB :=
| GB_CR | GB_LF | GB_Control | GB_Extend | GB_ZWJ | GB_RI | GB_Prepend
| GB_SpacingMark | GB_L | GB_V | GB_T | GB_LV | GB_LVT | GB_ExtPict
| GB_Other.

Definition grapheme_class (c : Z) : GCB :=
  if c =? 0x0D then GB_CR
  else if c =? 0x0A then GB_LF
  else if in_any [(0, 0x1F); (0x7F, 0x9F); (0x200B, 0x200B);
                  (0x2028, 0x2029)] c
          || in_any format_ranges c then GB_Control
  else if c =? 0x200D then GB_ZWJ
  else if in_any extend_ranges c then GB_Extend
  else if in_range 0x1F1E6 0x1F1FF c then GB_RI
  else if in_any [(0x600, 0x605); (0x6DD, 0x6DD); (0x70F, 0x70F)] c
    then GB_Prepend
  else if in_any spacing_mark_ranges c then GB_SpacingMark
  else if in_any [(0x1100, 0x115F); (0xA960, 0xA97C)] c then GB_L
  else if in_any [(0x1160, 0x11A7); (0xD7B0, 0xD7C6)] c then GB_V
  else if in_any [(0x11A8, 0x11FF); (0xD7CB, 0xD7FB)] c then GB_T
  else if in_range 0xAC00 0xD7A3 c then
    if (c - 0xAC00) mod 28 =? 0 then GB_LV else GB_LVT
  else if in_any pictographic_ranges c then GB_ExtPict
  else GB_Other.

Definition gcb_eqb (a b : GCB) : bool :=
  match a, b with
  | GB_CR, GB_CR | GB_LF, GB_LF | GB_Control, GB_Control
  | GB_Extend, GB_Extend | GB_ZWJ, GB_ZWJ | GB_RI, GB_RI
  | GB_Prepend, GB_Prepend | GB_SpacingMark, GB_SpacingMark
  | GB_L, GB_L | GB_V, GB_V | GB_T, GB_T | GB_LV, GB_LV
  | GB_LVT, GB_LVT | GB_ExtPict, GB_ExtPict | GB_Other, GB_Other => true
  | _, _ => false
  end.

Definition gcb_in (k : GCB) (ks : list GCB) : bool := existsb (gcb_eqb k) ks.

(** What the rules remember of the text in front of a position. *)
Record GState := mkG {
  g_prev : GCB;     (* class of the preceding code point *)
  g_ri_odd : bool;  (* an odd run of regional indicators ends here *)
  g_pict : nat      (* 1: ExtPict Extend*, 2: ExtPict Extend* ZWJ *)
}.

Definition g_advance (st : GState) (k : GCB) : GState :=
  mkG k
      (gcb_eqb k GB_RI && negb (gcb_eqb (g_prev st) GB_RI && g_ri_odd st))
      (match k with
       | GB_ExtPict => 1
       | GB_Extend => if Nat.eqb (g_pict st) 1 then 1 else 0
       | GB_ZWJ => if Nat.eqb (g_pict st) 1 then 2 else 0
       | _ => 0
       end)%nat.

Definition g_start (k : GCB) : GState :=
  mkG k (gcb_eqb k GB_RI) (match k with GB_ExtPict => 1 | _ => 0 end)%nat.

(** No boundary between the text summarised by [st] and a code point
    of class [k]. *)
Definition g_joined (st : GState) (k : GCB) : bool :=
  let p := g_prev st in
  if gcb_eqb p GB_CR && gcb_eqb k GB_LF then true                  (* GB3 *)
  else if gcb_in p [GB_Control; GB_CR; GB_LF] then false           (* GB4 *)
  else if gcb_in k [GB_Control; GB_CR; GB_LF] then false           (* GB5 *)
  else if gcb_eqb p GB_L && gcb_in k [GB_L; GB_V; GB_LV; GB_LVT]
    then true                                                      (* GB6 *)
  else if gcb_in p [GB_LV; GB_V] && gcb_in k [GB_V; GB_T] then true (* GB7 *)
  else if gcb_in p [GB_LVT; GB_T] && gcb_eqb k GB_T then true      (* GB8 *)
  else if gcb_in k [GB_Extend; GB_ZWJ] then true                   (* GB9 *)
  else if gcb_eqb k GB_SpacingMark then true                       (* GB9a *)
  else if gcb_eqb p GB_Prepend then true                           (* GB9b *)
  else if Nat.eqb (g_pict st) 2 && gcb_eqb k GB_ExtPict then true  (* GB11 *)
  else if gcb_eqb p GB_RI && g_ri_odd st && gcb_eqb k GB_RI
    then true                                                      (* GB12, GB13 *)
  else false.                                                      (* GB999 *)

Fixpoint grapheme_scan (st : GState) (offset : nat) (cps : list (Z * nat))
    : list nat :=
  match cps with
  | [] => [offset]
  | (c, n) :: rest =>
    let k := grapheme_class c in
    let tail := grapheme_scan (g_advance st k) (offset + n) rest in
    if g_joined st k then tail else offset :: tail
  end.

Definition grapheme_boundaries (u : UnicodeString) : list nat :=
  match code_points u with
  | [] => []
  | (c, n) :: rest => grapheme_scan (g_start (grapheme_class c)) n rest
  end.

(** Modelled from the spec: the grapheme rule set of ICU, which is linked
    and not in src.  Section 4.1: a base character with its combining
    marks, a ZWJ emoji sequence and a pair of regional indicators are one
    cluster each. *)
Definition characterRules : Rules :=
  fun u => map (fun b => (b, 0)) (grapheme_boundaries u).

(** *** Words *)

Inductive WB :=
| W_CR | W_LF | W_Newline | W_Extend | W_ZWJ | W_Format | W_Katakana
| W_ALetter | W_SingleQuote | W_MidNumLet | W_MidLetter | W_MidNum
| W_Numeric | W_ExtendNumLet | W_RI | W_WSegSpace | W_Ideographic
| W_ExtPict | W_Other.

Definition letter_ranges : list (Z * Z) :=
  [(0x41, 0x5A); (0x61, 0x7A); (0xAA, 0xAA); (0xB5, 0xB5); (0xBA, 0xBA);
   (0xC0, 0xD6); (0xD8, 0xF6); (0xF8, 0x2C1); (0x370, 0x373);
   (0x376, 0x377); (0x37B, 0x37D); (0x386, 0x386); (0x388, 0x3FF);
   (0x400, 0x481); (0x48A, 0x52F); (0x531, 0x556); (0x561, 0x587);
   (0x5D0, 0x5EA); (0x620, 0x64A); (0x904, 0x939); (0x1100, 0x11FF);
   (0xAC00, 0xD7A3)].

Definition word_class (c : Z) : WB :=
  if c =? 0x0D then W_CR
  else if c =? 0x0A then W_LF
  else if in_any [(0x0B, 0x0C); (0x85, 0x85); (0x2028, 0x2029)] c
    then W_Newline
  else if c =? 0x200D then W_ZWJ
  else if in_any extend_ranges c || in_any spacing_mark_ranges c
    then W_Extend
  else if in_any format_ranges c then W_Format
  else if in_any [(0x30A0, 0x30FF); (0x31F0, 0x31FF); (0xFF66, 0xFF9F)] c
    then W_Katakana
  else if in_any letter_ranges c then W_ALetter
  else if c =? 0x27 then W_SingleQuote
  else if in_any [(0x2E, 0x2E); (0x2018, 0x2019); (0x2024, 0x2024)] c
    then W_MidNumLet
  else if in_any [(0x3A, 0x3A); (0xB7, 0xB7); (0x387, 0x387);
                  (0x2027, 0x2027)] c then W_MidLetter
  else if in_any [(0x2C, 0x2C); (0x3B, 0x3B); (0x37E, 0x37E);
                  (0x589, 0x589)] c then W_MidNum
  else if in_any [(0x30, 0x39); (0x660, 0x669); (0x6F0, 0x6F9);
                  (0x966, 0x96F); (0xFF10, 0xFF19)] c then W_Numeric
  else if in_any [(0x5F, 0x5F); (0x202F, 0x202F); (0x203F, 0x2040)] c
    then W_ExtendNumLet
  else if in_range 0x1F1E6 0x1F1FF c then W_RI
  else if in_any [(0x20, 0x20); (0x1680, 0x1680); (0x2000, 0x2006);
                  (0x2008, 0x200A); (0x205F, 0x205F); (0x3000, 0x3000)] c
    then W_WSegSpace
  else if in_any [(0x3041, 0x3096); (0x3400, 0x4DBF); (0x4E00, 0x9FFF);
                  (0xF900, 0xFAFF); (0x20000, 0x2A6DF)] c
    then W_Ideographic
  else if in_any pictographic_ranges c then W_ExtPict
  else W_Other.

Definition wb_eqb (a b : WB) : bool :=
  match a, b with
  | W_CR, W_CR | W_LF, W_LF | W_Newline, W_Newline | W_Extend, W_Extend
  | W_ZWJ, W_ZWJ | W_Format, W_Format | W_Katakana, W_Katakana
  | W_ALetter, W_ALetter | W_SingleQuote, W_SingleQuote
  | W_MidNumLet, W_MidNumLet | W_MidLetter, W_MidLetter
  | W_MidNum, W_MidNum | W_Numeric, W_Numeric
  | W_ExtendNumLet, W_ExtendNumLet | W_RI, W_RI
  | W_WSegSpace, W_WSegSpace | W_Ideographic, W_Ideographic
  | W_ExtPict, W_ExtPict | W_Other, W_Other => true
  | _, _ => false
  end.

Definition wb_in (k : WB) (ks : list WB) : bool := existsb (wb_eqb k) ks.

(** Classes that rule WB4 attaches to what precedes them. *)
Definition ignorable (k : WB) : bool := wb_in k [W_Extend; W_Format; W_ZWJ].

(** Rule status a code point of class [k] gives to its segment. *)
Definition category (k : WB) : Z :=
  match k with
  | W_Numeric => UBRK_WORD_NUMBER
  | W_ALetter => UBRK_WORD_LETTER
  | W_Katakana => UBRK_WORD_KANA
  | W_Ideographic => UBRK_WORD_IDEO
  | _ => UBRK_WORD_NONE
  end.

(** Class of the next code point that WB4 does not skip. *)
Fixpoint lookahead (cps : list (Z * nat)) : option WB :=
  match cps with
  | [] => None
  | (c, _) :: rest =>
    let k := word_class c in
    if ignorable k then lookahead rest else Some k
  end.

Record WState := mkW {
  w_raw : WB;       (* class of the preceding code point *)
  w_prev : WB;      (* the same, skipping what WB4 skips *)
  w_prev2 : WB;     (* the one before [w_prev] *)
  w_ri_odd : bool   (* an odd run of regional indicators ends here *)
}.

Definition w_start (k : WB) : WState := mkW k k W_Other (wb_eqb k W_RI).

Definition w_advance (st : WState) (k : WB) : WState :=
  if ignorable k && negb (wb_in (w_raw st) [W_CR; W_LF; W_Newline])
  then mkW k (w_prev st) (w_prev2 st) (w_ri_odd st)
  else mkW k k (w_prev st)
           (wb_eqb k W_RI && negb (wb_eqb (w_prev st) W_RI && w_ri_odd st)).

Definition w_joined (st : WState) (k : WB) (ahead : option WB) : bool :=
  let raw := w_raw st in
  let p := w_prev st in
  let p2 := w_prev2 st in
  let ahead_is ks := match ahead with Some a => wb_in a ks | None => false end in
  let mid_letter := [W_MidLetter; W_MidNumLet; W_SingleQuote] in
  let mid_num := [W_MidNum; W_MidNumLet; W_SingleQuote] in
  if wb_eqb raw W_CR && wb_eqb k W_LF then true                    (* WB3 *)
  else if wb_in raw [W_Newline; W_CR; W_LF] then false             (* WB3a *)
  else if wb_in k [W_Newline; W_CR; W_LF] then false               (* WB3b *)
  else if wb_eqb raw W_ZWJ && wb_eqb k W_ExtPict then true         (* WB3c *)
  else if wb_eqb raw W_WSegSpace && wb_eqb k W_WSegSpace then true (* WB3d *)
  else if ignorable k then true                                    (* WB4 *)
  else if wb_eqb p W_ALetter && wb_eqb k W_ALetter then true       (* WB5 *)
  else if wb_eqb p W_ALetter && wb_in k mid_letter
          && ahead_is [W_ALetter] then true                        (* WB6 *)
  else if wb_eqb p2 W_ALetter && wb_in p mid_letter
          && wb_eqb k W_ALetter then true                          (* WB7 *)
  else if wb_in p [W_Numeric; W_ALetter] && wb_eqb k W_Numeric
    then true                                                      (* WB8, WB9 *)
  else if wb_eqb p W_Numeric && wb_eqb k W_ALetter then true       (* WB10 *)
  else if wb_eqb p2 W_Numeric && wb_in p mid_num
          && wb_eqb k W_Numeric then true                          (* WB11 *)
  else if wb_eqb p W_Numeric && wb_in k mid_num
          && ahead_is [W_Numeric] then true                        (* WB12 *)
  else if wb_eqb p W_Katakana && wb_eqb k W_Katakana then true     (* WB13 *)
  else if wb_in p [W_ALetter; W_Numeric; W_Katakana; W_ExtendNumLet]
          && wb_eqb k W_ExtendNumLet then true                     (* WB13a *)
  else if wb_eqb p W_ExtendNumLet
          && wb_in k [W_ALetter; W_Numeric; W_Katakana] then true  (* WB13b *)
  else if wb_eqb p W_RI && w_ri_odd st && wb_eqb k W_RI then true  (* WB15, WB16 *)
  else false.                                                      (* WB999 *)

Fixpoint word_scan (st : WState) (offset : nat) (tag : Z)
    (cps : list (Z * nat)) : list (nat * Z) :=
  match cps with
  | [] => [(offset, tag)]
  | (c, n) :: rest =>
    let k := word_class c in
    let st' := w_advance st k in
    if w_joined st k (lookahead rest)
    then word_scan st' (offset + n) (Z.max tag (category k)) rest
    else (offset, tag) :: word_scan st' (offset + n) (category k) rest
  end.

(** Modelled from the spec: the word rule set of ICU, which is linked and
    not in src.  Section 4.1: a segment is word-like if it holds letters,
    numbers, Katakana, Hiragana or ideographs, and non-word otherwise. *)
Definition wordRules : Rules :=
  fun u =>
    match code_points u with
    | [] => []
    | (c, n) :: rest =>
      let k := word_class c in
      word_scan (w_start k) n (category k) rest
    end.

(** An installation that has both rule sets for every locale. *)
Definition library : Library :=
  mkLibrary "en_US"%string
            (fun _ => (U_ZERO_ERROR, Some wordRules))
            (fun _ => (U_ZERO_ERROR, Some characterRules)).

(** An installation whose word rules are missing. *)
Definition library_without_word_rules : Library :=
  mkLibrary "en_US"%string
            (fun _ => (U_MISSING_RESOURCE_ERROR, None))
            (fun _ => (U_ZERO_ERROR, Some characterRules)).

(** An installation whose character rules are missing. *)
Definition library_without_character_rules : Library :=
  mkLibrary "en_US"%string
            (fun _ => (U_ZERO_ERROR, Some wordRules))
            (fun _ => (U_MISSING_RESOURCE_ERROR, None)).

End UAX29.

(** ** Notions the properties are stated in *)

(** The span between two adjacent boundaries, with the rule status the
    iterator reports at its end. *)
Record Segment := mkSegment {
  seg_start : nat;
  seg_end : nat;
  seg_status : Z
}.

Fixpoint segments_from (start : nat) (bs : list (nat * Z)) : list Segment :=
  match bs with
  | [] => []
  | (b, tag) :: rest => mkSegment start b tag :: segments_from b rest
  end.

(** The segments of text [u] under rule set [r]. *)
Definition segments (r : Rules) (u : UnicodeString) : list Segment :=
  segments_from 0 (r u).

(** Rule status different from "none". *)
Definition word_like (s : Segment) : bool :=
  negb (seg_status s =? UBRK_WORD_NONE).

(** All boundaries an iterator reports: offset 0 from [first], then those
    from [next]. *)
Definition boundary_sequence (r : Rules) (u : UnicodeString) : list nat :=
  0%nat :: map fst (r u).

(** The guard [U_SUCCESS(status) && iter] on the outcome of a factory. *)
Definition constructed (outcome : UErrorCode * option Rules) : bool :=
  U_SUCCESS (fst outcome)
  && match snd outcome with Some _ => true | None => false end.

Fixpoint increasing (prev : nat) (bs : list nat) : bool :=
  match bs with
  | [] => true
  | b :: rest => (prev <? b)%nat && increasing b rest
  end.

(** What ICU promises of the boundaries behind offset 0: they increase
    strictly, none splits a surrogate pair, and the last one is the
    length of the text. *)
Definition boundaries_ok (u : UnicodeString) (bs : list nat) : bool :=
  increasing 0 bs
  && forallb (fun b => existsb (Nat.eqb b) (code_point_ends 0 u)) bs
  && Nat.eqb (last bs 0%nat) (length u).

(** The same of the rule set a factory returned, on text [u]. *)
Definition contract (outcome : UErrorCode * option Rules)
    (u : UnicodeString) : bool :=
  match snd outcome with
  | Some r => boundaries_ok u (map fst (r u))
  | None => true
  end.

(** Closed forms of the two counts, by the outcome of the factory. *)
Definition words_by (outcome : UErrorCode * option Rules)
    (u : UnicodeString) : Z :=
  match outcome with
  | (code, Some r) =>
    if U_SUCCESS code then Z.of_nat (length (filter word_like (segments r u)))
    else 0
  | (_, None) => 0
  end.

Definition graphemes_by (outcome : UErrorCode * option Rules)
    (u : UnicodeString) : Z :=
  match outcome with
  | (code, Some r) => if U_SUCCESS code then Z.of_nat (length (r u)) else 0
  | (_, None) => 0
  end.

(** What [toUtf8] makes of one element of the text. *)
Definition sanitize (c : Z) : Z := if is_scalar c then c else REPLACEMENT.

Definition text_of_string (s : string) : QString :=
  map (fun a => Z.of_N (N_of_ascii a)) (list_ascii_of_string s).

(** "cafe" followed by U+0301 COMBINING ACUTE ACCENT. *)
Definition cafe : QString := [0x63; 0x61; 0x66; 0x65; 0x301].

(** Walking over the code points of a text. *)

Fixpoint offsets_from (base : nat) (lens : list nat) : list nat :=
  match lens with
  | [] => []
  | n :: rest => (base + n)%nat :: offsets_from (base + n) rest
  end.

(** [cuts o lens bs]: walking from offset [o] over code points of lengths
    [lens], [bs] holds some of the offsets passed and the final one. *)
Inductive cuts : nat -> list nat -> list nat -> Prop :=
| cuts_end o : cuts o [] [o]
| cuts_join o n lens bs : cuts (o + n) lens bs -> cuts o (n :: lens) bs
| cuts_break o n lens bs : cuts (o + n) lens bs -> cuts o (n :: lens) (o :: bs).

(** ** The window: construction and the file slots

    The remaining members of [CodeEditor] act on the window, on files
    and on dialogs.  The file system and the user are inputs: what a
    dialog returns is given by [Answers], what opening or writing a file
    does by [Platform]; the dialogs shown are logged in order. *)

Inductive StandardButton := Yes | No | Cancel.

Inductive Dialog :=
| Question (title text : string)        (* QMessageBox::question *)
| Warning (title text : string)         (* QMessageBox::warning *)
| OpenFileName (caption : string)       (* QFileDialog::getOpenFileName *)
| SaveFileName (caption : string).      (* QFileDialog::getSaveFileName *)

(** What the user does with the dialogs of one slot call; a file dialog
    that is dismissed returns the empty string. *)
Record Answers := mkAnswers {
  question : StandardButton;
  getOpenFileName : string;
  getSaveFileName : string
}.

(** The files that exist, by name, with their contents; the first entry
    of a name is the file. *)
Definition Disk := list (string * QByteArray).

Fixpoint lookup (files : Disk) (name : string) : option QByteArray :=
  match files with
  | [] => None
  | (n, bytes) :: rest => if String.eqb n name then Some bytes else lookup rest name
  end.

Record Platform := mkPlatform {
  installed : Library;
  (* whether the editor emits [textChanged] when its text is replaced *)
  textChanged : QString -> QString -> bool;
  (* whether [open(ReadOnly)] of an existing file succeeds *)
  readable : string -> bool;
  (* whether [open(WriteOnly)] succeeds *)
  writable : string -> bool;
  (* what [QFile::write] returns: the bytes written, -1 on error *)
  write : string -> QByteArray -> Z;
  errorString : string -> string
}.

Record Desktop := mkDesktop {
  window : CodeEditor;
  disk : Disk;
  shown : list Dialog
}.

Definition isEmpty (s : string) : bool :=
  match s with EmptyString => true | String _ _ => false end.

Definition with_window (d : Desktop) (w : CodeEditor) : Desktop :=
  mkDesktop w (disk d) (shown d).

Definition show (d : Desktop) (x : Dialog) : Desktop :=
  mkDesktop (window d) (disk d) (shown d ++ [x]).

Definition store (files : Disk) (name : string) (bytes : QByteArray) : Disk :=
  (name, bytes) :: files.

Definition setModified (w : CodeEditor) (m : bool) : CodeEditor :=
  mkEditor (editor_text w) m (currentFile w) (statusBar w).

Definition setCurrentFile (w : CodeEditor) (name : string) : CodeEditor :=
  mkEditor (editor_text w) (editor_modified w) name (statusBar w).

(** [editor->setText(t)]: the editor is taken to hold the text it is
    given, and where it emits [textChanged] the slot connected in the
    constructor (lines 41-42) runs before [setText] returns.  Both
    callers set the modified flag themselves right after. *)
Definition editor_setText (p : Platform) (w : CodeEditor) (t : QString)
    : option CodeEditor :=
  let w' := mkEditor t (editor_modified w) (currentFile w) (statusBar w) in
  if textChanged p (editor_text w) t then updateStats (installed p) w'
  else Some w'.

(** [QFile::open(WriteOnly)] followed by [write] and [close]: opening
    truncates the file, [write] leaves in it the bytes it reports. *)
Definition written_file (bytes : QByteArray) (written : Z) : QByteArray :=
  if written =? -1 then [] else firstn (Z.to_nat written) bytes.

(** Lines 236-254: [saveFile] once [currentFile] is known not to be
    empty. *)
Definition write_current (p : Platform) (d : Desktop) : bool * Desktop :=
  let file := currentFile (window d) in
  if negb (writable p file) then
    (false,
     show d (Warning "Save Failed"
               ("Cannot save file: " ++ errorString p file)%string))
  else
    let bytes := toUtf8 (editor_text (window d)) in
    let written := write p file bytes in
    let d := mkDesktop (window d)
                       (store (disk d) file (written_file bytes written))
                       (shown d) in
    if written =? -1 then
      (false,
       show d (Warning "Save Failed" ("Failed to write file: " ++ file)%string))
    else
      let w := setModified (window d) false in
      let w := showMessage w ("Saved: " ++ file)%string in
      (true, with_window d w).

(** Lines 233-263.  [saveFile] and [saveFileAs] call each other; the fuel
    bounds the depth of the calls, [None] when it runs out. *)
Fixpoint saveFile (fuel : nat) (p : Platform) (a : Answers) (d : Desktop)
    : option (bool * Desktop) :=
  match fuel with
  | O => None
  | S fuel' =>
    if isEmpty (currentFile (window d)) then saveFileAs fuel' p a d
    else Some (write_current p d)
  end
with saveFileAs (fuel : nat) (p : Platform) (a : Answers) (d : Desktop)
    : option (bool * Desktop) :=
  match fuel with
  | O => None
  | S fuel' =>
    let fileName := getSaveFileName a in
    let d := show d (SaveFileName "Save File As") in
    if isEmpty fileName then Some (false, d)
    else
      let d := with_window d (setCurrentFile (window d) fileName) in
      saveFile fuel' p a d
  end.

(** Lines 190-196 and 205-211, the same in [newFile] and [openFile] but
    for the text of the question: [false] when the slot returns at once. *)
Definition unsaved_changes (fuel : nat) (p : Platform) (a : Answers)
    (text : string) (d : Desktop) : option (bool * Desktop) :=
  if editor_modified (window d) then
    let d := show d (Question "Unsaved Changes" text) in
    match question a with
    | Cancel => Some (false, d)
    | Yes => saveFile fuel p a d
    | No => Some (true, d)
    end
  else Some (true, d).

(** Lines 189-202. *)
Definition newFile (fuel : nat) (p : Platform) (a : Answers) (d : Desktop)
    : option Desktop :=
  '(proceed, d) <-
    unsaved_changes fuel p a
      "The document has unsaved changes. Save before creating a new file?" d ;;
  if proceed then
    w <- editor_setText p (window d) [] ;;
    let w := setCurrentFile w "" in
    let w := setModified w false in
    let w := showMessage w "New file" in
    Some (with_window d w)
  else Some d.

Definition skip_bom (bytes : QByteArray) : QByteArray :=
  match bytes with
  | b0 :: b1 :: b2 :: rest =>
    if (b0 =? 0xEF) && (b1 =? 0xBB) && (b2 =? 0xBF) then rest else bytes
  | _ => bytes
  end.

(** Decoding as [QString::fromUtf8] does it: an ill-formed sequence costs
    its first byte and yields one U+FFFD. *)
Fixpoint qstring_decode (bytes : list Z) : list Z :=
  match bytes with
  | [] => []
  | b0 :: r =>
    if b0 <? 0x80 then b0 :: qstring_decode r
    else if in_range 0xC2 0xDF b0 then
      match r with
      | b1 :: r1 =>
        if is_trail b1 then cp2 b0 b1 :: qstring_decode r1
        else REPLACEMENT :: qstring_decode r
      | [] => [REPLACEMENT]
      end
    else if in_range 0xE0 0xEF b0 then
      match r with
      | b1 :: b2 :: r2 =>
        if second_ok b0 b1 && is_trail b2
        then cp3 b0 b1 b2 :: qstring_decode r2
        else REPLACEMENT :: qstring_decode r
      | _ => REPLACEMENT :: qstring_decode r
      end
    else if in_range 0xF0 0xF4 b0 then
      match r with
      | b1 :: b2 :: b3 :: r3 =>
        if second_ok b0 b1 && is_trail b2 && is_trail b3
        then cp4 b0 b1 b2 b3 :: qstring_decode r3
        else REPLACEMENT :: qstring_decode r
      | _ => REPLACEMENT :: qstring_decode r
      end
    else REPLACEMENT :: qstring_decode r
  end.

(** [QString::fromUtf8]: a leading byte order mark is dropped. *)
Definition QString_fromUtf8 (bytes : QByteArray) : QString :=
  qstring_decode (skip_bom bytes).

(** Lines 204-231. *)
Definition openFile (fuel : nat) (p : Platform) (a : Answers) (d : Desktop)
    : option Desktop :=
  '(proceed, d) <-
    unsaved_changes fuel p a
      "The document has unsaved changes. Save before opening another file?" d ;;
  if proceed then
    let fileName := getOpenFileName a in
    let d := show d (OpenFileName "Open File") in
    if isEmpty fileName then Some d
    else
      match (if readable p fileName then lookup (disk d) fileName else None) with
      | None =>
        Some (show d (Warning "Open Failed"
                        ("Cannot open file: " ++ errorString p fileName)%string))
      | Some bytes =>
        let contents := QString_fromUtf8 bytes in
        w <- editor_setText p (window d) contents ;;
        let w := setCurrentFile w fileName in
        let w := setModified w false in
        let w := showMessage w ("Opened: " ++ fileName)%string in
        Some (with_window d w)
      end
  else Some d.

(** Lines 102-105. *)
Definition setupStatusBar (icu : Library) (w : CodeEditor) : option CodeEditor :=
  let w := showMessage w "Ready" in
  updateStats icu w.

(** Lines 29-43: a fresh editor is empty and unmodified, [currentFile] is
    a null string; [setupEditor], [setupLexer] and [setupMenuBar] set
    appearance and menus, which the model does not hold. *)
Definition CodeEditor_new (icu : Library) : option CodeEditor :=
  let w := mkEditor [] false "" "" in
  setupStatusBar icu w.

(** Closed form of [saveFile] when the fuel suffices. *)
Definition save_outcome (p : Platform) (a : Answers) (d : Desktop)
    : bool * Desktop :=
  if isEmpty (currentFile (window d)) then
    let d1 := show d (SaveFileName "Save File As") in
    if isEmpty (getSaveFileName a) then (false, d1)
    else write_current p
           (with_window d1 (setCurrentFile (window d1) (getSaveFileName a)))
  else write_current p d.

Definition new_question : string :=
  "The document has unsaved changes. Save before creating a new file?".

Definition open_question : string :=
  "The document has unsaved changes. Save before opening another file?".

(** Closed form of [unsaved_changes] when the fuel suffices. *)
Definition unsaved_outcome (p : Platform) (a : Answers) (text : string)
    (d : Desktop) : bool * Desktop :=
  if editor_modified (window d) then
    let d := show d (Question "Unsaved Changes" text) in
    match question a with
    | Cancel => (false, d)
    | Yes => save_outcome p a d
    | No => (true, d)
    end
  else (true, d).

(** Closed form of lines 213-230: choosing and loading the file. *)
Definition load (p : Platform) (a : Answers) (d : Desktop) : Desktop :=
  let fileName := getOpenFileName a in
  let d := show d (OpenFileName "Open File") in
  if isEmpty fileName then d
  else
    match (if readable p fileName then lookup (disk d) fileName else None) with
    | None =>
      show d (Warning "Open Failed"
                ("Cannot open file: " ++ errorString p fileName)%string)
    | Some bytes =>
      mkDesktop (mkEditor (QString_fromUtf8 bytes) false fileName
                          ("Opened: " ++ fileName)%string)
                (disk d) (shown d)
    end.

(** The window [newFile] leaves when it goes through. *)
Definition blank : CodeEditor := mkEditor [] false "" "New file".

Definition is_question (x : Dialog) : bool :=
  match x with Question _ _ => true | _ => false end.

Definition is_warning (x : Dialog) : bool :=
  match x with Warning _ _ => true | _ => false end.

Definition is_open_dialog (x : Dialog) : bool :=
  match x with OpenFileName _ => true | _ => false end.

Definition is_save_dialog (x : Dialog) : bool :=
  match x with SaveFileName _ => true | _ => false end.

Definition count_shown (kind : Dialog -> bool) (l : list Dialog) : nat :=
  length (filter kind l).

(** Platforms and desktops to run the slots on. *)
Definition obliging : Platform :=
  mkPlatform UAX29.library (fun _ _ => true) (fun _ => true) (fun _ => true)
             (fun _ bytes => Z.of_nat (length bytes))
             (fun _ => "Permission denied"%string).

Definition short_of_space : Platform :=
  mkPlatform UAX29.library (fun _ _ => true) (fun _ => true) (fun _ => true)
             (fun _ _ => 3) (fun _ => "No space left on device"%string).

Definition failing_writes : Platform :=
  mkPlatform UAX29.library (fun _ _ => true) (fun _ => true) (fun _ => true)
             (fun _ _ => -1) (fun _ => "No space left on device"%string).

Definition draft : Desktop :=
  mkDesktop (mkEditor (text_of_string "Hi there") true ""
                      "Words: 2 | Characters: 8")
            [] [].

Definition named_draft : Desktop :=
  mkDesktop (mkEditor (text_of_string "Hi there") true "notes.txt"
                      "Words: 2 | Characters: 8")
            [("notes.txt"%string, text_of_string "Hi");
             ("other.txt"%string, text_of_string "Bye")] [].

(** No space among the characters of [s]. *)
Fixpoint spaceless (s : string) : bool :=
  match s with
  | EmptyString => true
  | String c rest => negb (Ascii.eqb c " ") && spaceless rest
  end.

(** Linear arithmetic with division by constants. *)
Ltac arith := Z.to_euclidean_division_equations; lia.

(** ** The counting loops terminate and count *)

Lemma of_nat_not_DONE (b : nat) : (Z.of_nat b =? DONE) = false.
Proof. apply Z.eqb_neq. unfold DONE. lia. Qed.

Lemma word_like_status (s b : nat) (tag : Z) :
  word_like (mkSegment s b tag) = negb (tag =? UBRK_WORD_NONE).
Proof. reflexivity. Qed.

Lemma word_like_count_shift (bs : list (nat * Z)) (s s' : nat) :
  length (filter word_like (segments_from s bs))
  = length (filter word_like (segments_from s' bs)).
Proof.
  destruct bs as [|[b tag] bs]; [reflexivity|].
  cbn [segments_from filter]. rewrite !word_like_status.
  destruct (negb (tag =? UBRK_WORD_NONE)); reflexivity.
Qed.

Lemma word_loop_counts (bs : list (nat * Z)) :
  forall fuel r txt tag wordCount start,
    (length bs < fuel)%nat ->
    word_loop fuel (mkIter r txt bs tag) wordCount
    = Some (wordCount
            + Z.of_nat (length (filter word_like (segments_from start bs)))).
Proof.
  induction bs as [|[b t] bs IH]; intros fuel r txt tag wordCount start Hfuel;
    (destruct fuel as [|fuel]; [cbn [length] in Hfuel; lia|]).
  - cbn. f_equal. lia.
  - cbn [word_loop next pending rules text]. rewrite of_nat_not_DONE.
    cbn [negb getRuleStatus ruleStatus].
    rewrite (IH fuel r txt t _ b) by (cbn [length] in Hfuel; lia).
    cbn [segments_from filter]. rewrite word_like_status.
    destruct (negb (t =? UBRK_WORD_NONE)); cbn [length]; f_equal; lia.
Qed.

Lemma grapheme_loop_counts (bs : list (nat * Z)) :
  forall fuel r txt tag start graphemes,
    (length bs < fuel)%nat ->
    (let (end_, charIter) := next (mkIter r txt bs tag) in
     grapheme_loop fuel charIter start end_ graphemes)
    = Some (graphemes + Z.of_nat (length bs)).
Proof.
  induction bs as [|[b t] bs IH]; intros fuel r txt tag start graphemes Hfuel;
    (destruct fuel as [|fuel]; [cbn [length] in Hfuel; lia|]).
  - cbn. f_equal. lia.
  - cbn [next pending rules text grapheme_loop]. rewrite of_nat_not_DONE.
    cbn [negb].
    rewrite (IH fuel r txt t (Z.of_nat b) (graphemes + 1))
      by (cbn [length] in Hfuel; lia).
    cbn [length]. f_equal. lia.
Qed.

Lemma create_entered_clean (load : Locale -> UErrorCode * option Rules)
    (loc : Locale) :
  create load loc U_ZERO_ERROR
  = (option_map instantiate (snd (load loc)), fst (load loc)).
Proof. unfold create. destruct (load loc). reflexivity. Qed.

Lemma count_words_closed (outcome : UErrorCode * option Rules)
    (u : UnicodeString) :
  count_words (option_map instantiate (snd outcome)) (fst outcome) u
  = Some (words_by outcome u).
Proof.
  destruct outcome as [code [r|]]; unfold count_words, words_by;
    cbn [option_map fst snd]; [|destruct (U_SUCCESS code); reflexivity].
  destruct (U_SUCCESS code); [|reflexivity].
  cbn [instantiate setText first rules text].
  unfold variant. cbn [pending].
  rewrite (word_loop_counts (r u) _ r u 0 0 0%nat) by lia.
  reflexivity.
Qed.

Lemma count_graphemes_closed (outcome : UErrorCode * option Rules)
    (u : UnicodeString) :
  count_graphemes (option_map instantiate (snd outcome)) (fst outcome) u
  = Some (graphemes_by outcome u).
Proof.
  destruct outcome as [code [r|]]; unfold count_graphemes, graphemes_by;
    cbn [option_map fst snd]; [|destruct (U_SUCCESS code); reflexivity].
  destruct (U_SUCCESS code); [|reflexivity].
  cbn [instantiate setText first rules text].
  unfold variant. cbn [pending].
  rewrite (grapheme_loop_counts (r u) _ r u 0 0 0) by lia.
  reflexivity.
Qed.

(** Both loops run to their end on every text: [stats] always returns, and
    each count is the closed form of its own factory outcome. *)
Lemma stats_closed (icu : Library) (text : QString) :
  stats icu text
  = Some (words_by (wordInstance icu (getDefault icu)) (utext_of text),
          graphemes_by (characterInstance icu (getDefault icu)) (utext_of text)).
Proof.
  unfold stats, createWordInstance, createCharacterInstance.
  rewrite !create_entered_clean.
  rewrite count_words_closed, count_graphemes_closed. reflexivity.
Qed.

Lemma updateStats_closed (icu : Library) (w : CodeEditor) :
  updateStats icu w
  = Some (showMessage w
            (message
               (words_by (wordInstance icu (getDefault icu))
                         (utext_of (editor_text w)))
               (graphemes_by (characterInstance icu (getDefault icu))
                             (utext_of (editor_text w))))).
Proof. unfold updateStats. rewrite stats_closed. reflexivity. Qed.

(** ** From bit operations to arithmetic *)

Lemma lor_disjoint (k lo n : Z) :
  0 <= n -> 0 <= lo < 2 ^ n -> Z.lor (k * 2 ^ n) lo = k * 2 ^ n + lo.
Proof.
  intros Hn Hlo.
  assert (Hand : Z.land (k * 2 ^ n) lo = 0).
  { apply Z.bits_inj'. intros m Hm.
    rewrite Z.land_spec, Z.bits_0.
    destruct (Z.lt_ge_cases m n) as [Hlt|Hge].
    - rewrite Z.mul_pow2_bits_low by assumption. reflexivity.
    - rewrite <- (Z.mod_small lo (2 ^ n)) by assumption.
      rewrite Z.mod_pow2_bits_high by lia. apply andb_false_r. }
  rewrite (Z.add_nocarry_lxor _ _ Hand). symmetry. apply Z.lxor_lor, Hand.
Qed.

Lemma low6_mod (x : Z) : low6 x = x mod 64.
Proof. unfold low6. apply (Z.land_ones x 6). lia. Qed.

Lemma trail_arith (x : Z) : trail x = 128 + x mod 64.
Proof.
  unfold trail. change (Z.land x 0x3F) with (low6 x). rewrite low6_mod.
  apply (lor_disjoint 2 (x mod 64) 6); arith.
Qed.

Lemma shiftr6 (c : Z) : Z.shiftr c 6 = c / 64.
Proof. apply (Z.shiftr_div_pow2 c 6). lia. Qed.

Lemma shiftr12 (c : Z) : Z.shiftr c 12 = c / 4096.
Proof. apply (Z.shiftr_div_pow2 c 12). lia. Qed.

Lemma shiftr18 (c : Z) : Z.shiftr c 18 = c / 262144.
Proof. apply (Z.shiftr_div_pow2 c 18). lia. Qed.

Lemma lead2_arith (y : Z) : 0 <= y < 32 -> Z.lor 0xC0 y = 192 + y.
Proof. intros H. apply (lor_disjoint 6 y 5); lia. Qed.

Lemma lead3_arith (y : Z) : 0 <= y < 16 -> Z.lor 0xE0 y = 224 + y.
Proof. intros H. apply (lor_disjoint 14 y 4); lia. Qed.

Lemma lead4_arith (y : Z) : 0 <= y < 8 -> Z.lor 0xF0 y = 240 + y.
Proof. intros H. apply (lor_disjoint 30 y 3); lia. Qed.

Lemma utf8_bytes_arith (c : Z) :
  0 <= c <= 0x10FFFF ->
  utf8_bytes c =
    if c <? 0x80 then [c]
    else if c <? 0x800 then [192 + c / 64; 128 + c mod 64]
    else if c <? 0x10000 then
      [224 + c / 4096; 128 + (c / 64) mod 64; 128 + c mod 64]
    else [240 + c / 262144; 128 + (c / 4096) mod 64;
          128 + (c / 64) mod 64; 128 + c mod 64].
Proof.
  intros Hc. unfold utf8_bytes.
  rewrite !trail_arith, shiftr6, shiftr12, shiftr18.
  destruct (Z.ltb_spec c 0x80); [reflexivity|].
  destruct (Z.ltb_spec c 0x800).
  { rewrite lead2_arith by arith. reflexivity. }
  destruct (Z.ltb_spec c 0x10000).
  { rewrite lead3_arith by arith. reflexivity. }
  rewrite lead4_arith by arith. reflexivity.
Qed.

Lemma mask5 (b : Z) : Z.land b 0x1F = b mod 32.
Proof. apply (Z.land_ones b 5). lia. Qed.

Lemma mask4 (b : Z) : Z.land b 0x0F = b mod 16.
Proof. apply (Z.land_ones b 4). lia. Qed.

Lemma mask3 (b : Z) : Z.land b 0x07 = b mod 8.
Proof. apply (Z.land_ones b 3). lia. Qed.

Lemma join6 (hi lo : Z) :
  Z.lor (Z.shiftl hi 6) (lo mod 64) = hi * 64 + lo mod 64.
Proof.
  rewrite Z.shiftl_mul_pow2 by lia. apply (lor_disjoint hi _ 6); arith.
Qed.

Lemma join12 (hi lo : Z) :
  0 <= lo < 4096 -> Z.lor (Z.shiftl hi 12) lo = hi * 4096 + lo.
Proof.
  intros H. rewrite Z.shiftl_mul_pow2 by lia.
  apply (lor_disjoint hi _ 12); lia.
Qed.

Lemma join18 (hi lo : Z) :
  0 <= lo < 262144 -> Z.lor (Z.shiftl hi 18) lo = hi * 262144 + lo.
Proof.
  intros H. rewrite Z.shiftl_mul_pow2 by lia.
  apply (lor_disjoint hi _ 18); lia.
Qed.

Lemma cp2_arith (b0 b1 : Z) : cp2 b0 b1 = (b0 mod 32) * 64 + b1 mod 64.
Proof. unfold cp2. rewrite low6_mod, mask5. apply join6. Qed.

Lemma cp3_arith (b0 b1 b2 : Z) :
  cp3 b0 b1 b2 = (b0 mod 16) * 4096 + (b1 mod 64) * 64 + b2 mod 64.
Proof.
  unfold cp3. rewrite !low6_mod, mask4, join6, join12 by arith. lia.
Qed.

Lemma cp4_arith (b0 b1 b2 b3 : Z) :
  cp4 b0 b1 b2 b3
  = (b0 mod 8) * 262144 + (b1 mod 64) * 4096 + (b2 mod 64) * 64 + b3 mod 64.
Proof.
  unfold cp4.
  rewrite !low6_mod, mask3, join6, join12, join18 by arith. lia.
Qed.

Lemma in_range_true (lo hi x : Z) : lo <= x <= hi -> in_range lo hi x = true.
Proof.
  intros H. unfold in_range. apply andb_true_intro. split; apply Z.leb_le; lia.
Qed.

Lemma in_range_false (lo hi x : Z) :
  x < lo \/ hi < x -> in_range lo hi x = false.
Proof.
  intros H. unfold in_range. apply andb_false_iff.
  destruct H; [left|right]; apply Z.leb_gt; lia.
Qed.

Lemma in_range_iff (lo hi x : Z) : in_range lo hi x = true <-> lo <= x <= hi.
Proof.
  unfold in_range. rewrite andb_true_iff, !Z.leb_le. reflexivity.
Qed.

Lemma decode1 (b : Z) (r : list Z) :
  b < 0x80 -> utf8_decode (b :: r) = b :: utf8_decode r.
Proof.
  intros H. cbn [utf8_decode]. rewrite (proj2 (Z.ltb_lt b 0x80)) by lia.
  reflexivity.
Qed.

Lemma decode2 (b0 b1 : Z) (r : list Z) :
  0xC2 <= b0 <= 0xDF -> 0x80 <= b1 <= 0xBF ->
  utf8_decode (b0 :: b1 :: r) = cp2 b0 b1 :: utf8_decode r.
Proof.
  intros H0 H1. cbn [utf8_decode].
  rewrite (proj2 (Z.ltb_ge b0 0x80)) by lia.
  rewrite (in_range_true 0xC2 0xDF b0) by lia.
  unfold is_trail. rewrite (in_range_true 0x80 0xBF b1) by lia.
  reflexivity.
Qed.

Lemma decode3 (b0 b1 b2 : Z) (r : list Z) :
  0xE0 <= b0 <= 0xEF -> second_ok b0 b1 = true -> 0x80 <= b2 <= 0xBF ->
  utf8_decode (b0 :: b1 :: b2 :: r) = cp3 b0 b1 b2 :: utf8_decode r.
Proof.
  intros H0 H1 H2. cbn [utf8_decode].
  rewrite (proj2 (Z.ltb_ge b0 0x80)) by lia.
  rewrite (in_range_false 0xC2 0xDF b0) by lia.
  rewrite (in_range_true 0xE0 0xEF b0) by lia.
  rewrite H1. unfold is_trail. rewrite (in_range_true 0x80 0xBF b2) by lia.
  reflexivity.
Qed.

Lemma decode4 (b0 b1 b2 b3 : Z) (r : list Z) :
  0xF0 <= b0 <= 0xF4 -> second_ok b0 b1 = true ->
  0x80 <= b2 <= 0xBF -> 0x80 <= b3 <= 0xBF ->
  utf8_decode (b0 :: b1 :: b2 :: b3 :: r) = cp4 b0 b1 b2 b3 :: utf8_decode r.
Proof.
  intros H0 H1 H2 H3. cbn [utf8_decode].
  rewrite (proj2 (Z.ltb_ge b0 0x80)) by lia.
  rewrite (in_range_false 0xC2 0xDF b0) by lia.
  rewrite (in_range_false 0xE0 0xEF b0) by lia.
  rewrite (in_range_true 0xF0 0xF4 b0) by lia.
  rewrite H1. unfold is_trail.
  rewrite (in_range_true 0x80 0xBF b2), (in_range_true 0x80 0xBF b3) by lia.
  reflexivity.
Qed.

(** ** The text handed to ICU *)

Lemma scalar_bounds (c : Z) :
  is_scalar c = true -> 0 <= c <= 0x10FFFF /\ (c < 0xD800 \/ 0xDFFF < c).
Proof.
  unfold is_scalar, is_surrogate. rewrite andb_true_iff, negb_true_iff.
  intros [Hr Hs]. apply in_range_iff in Hr. split; [exact Hr|].
  unfold in_range in Hs. apply andb_false_iff in Hs.
  destruct Hs as [Hs|Hs]; apply Z.leb_gt in Hs; lia.
Qed.

Lemma second_ok_3 (c : Z) :
  0x800 <= c < 0x10000 -> (c < 0xD800 \/ 0xDFFF < c) ->
  second_ok (224 + c / 4096) (128 + (c / 64) mod 64) = true.
Proof.
  intros Hc Hs. unfold second_ok, is_trail.
  destruct (Z.eqb_spec (224 + c / 4096) 0xE0); [apply in_range_true; arith|].
  destruct (Z.eqb_spec (224 + c / 4096) 0xED); [apply in_range_true; arith|].
  destruct (Z.eqb_spec (224 + c / 4096) 0xF0); [arith|].
  destruct (Z.eqb_spec (224 + c / 4096) 0xF4); [arith|].
  apply in_range_true; arith.
Qed.

Lemma second_ok_4 (c : Z) :
  0x10000 <= c <= 0x10FFFF ->
  second_ok (240 + c / 262144) (128 + (c / 4096) mod 64) = true.
Proof.
  intros Hc. unfold second_ok, is_trail.
  destruct (Z.eqb_spec (240 + c / 262144) 0xE0); [arith|].
  destruct (Z.eqb_spec (240 + c / 262144) 0xED); [arith|].
  destruct (Z.eqb_spec (240 + c / 262144) 0xF0); [apply in_range_true; arith|].
  destruct (Z.eqb_spec (240 + c / 262144) 0xF4); [apply in_range_true; arith|].
  apply in_range_true; arith.
Qed.

(** Decoding undoes encoding, one scalar value at a time. *)
Lemma utf8_roundtrip (c : Z) (rest : list Z) :
  is_scalar c = true ->
  utf8_decode (utf8_bytes c ++ rest) = c :: utf8_decode rest.
Proof.
  intros Hc. destruct (scalar_bounds c Hc) as [Hr Hs].
  rewrite (utf8_bytes_arith c Hr).
  destruct (Z.ltb_spec c 0x80).
  { cbn [app]. apply decode1. assumption. }
  destruct (Z.ltb_spec c 0x800).
  { cbn [app]. rewrite decode2 by arith. f_equal. rewrite cp2_arith. arith. }
  destruct (Z.ltb_spec c 0x10000).
  { cbn [app].
    rewrite decode3 by (try apply second_ok_3; try assumption; arith).
    f_equal. rewrite cp3_arith. arith. }
  cbn [app].
  rewrite decode4 by (try apply second_ok_4; arith).
  f_equal. rewrite cp4_arith. arith.
Qed.

Lemma utf8_bytes_nonzero (c : Z) :
  is_scalar c = true -> c <> 0 -> Forall (fun b => b <> 0) (utf8_bytes c).
Proof.
  intros Hc Hnz. destruct (scalar_bounds c Hc) as [Hr _].
  rewrite (utf8_bytes_arith c Hr).
  destruct (c <? 0x80); [|destruct (c <? 0x800); [|destruct (c <? 0x10000)]];
    repeat constructor; arith.
Qed.

Lemma sanitize_scalar (c : Z) : is_scalar (sanitize c) = true.
Proof.
  unfold sanitize. destruct (is_scalar c) eqn:E; [exact E|reflexivity].
Qed.

Lemma sanitize_zero (c : Z) : sanitize c = 0 <-> c = 0.
Proof.
  unfold sanitize. split.
  - destruct (is_scalar c); [trivial|]. unfold REPLACEMENT. lia.
  - intros ->. reflexivity.
Qed.

Lemma c_str_app (bs rest : list Z) :
  Forall (fun b => b <> 0) bs -> c_str (bs ++ rest) = bs ++ c_str rest.
Proof.
  induction 1 as [|b bs Hb _ IH]; [reflexivity|].
  cbn [app c_str]. rewrite (proj2 (Z.eqb_neq b 0) Hb), IH. reflexivity.
Qed.

(** Cutting the bytes at the first NUL cuts the text at the first U+0000. *)
Lemma c_str_toUtf8 (text : QString) :
  c_str (toUtf8 text) = toUtf8 (before_nul text).
Proof.
  unfold toUtf8. induction text as [|c text IH]; [reflexivity|].
  cbn [flat_map before_nul]. fold (sanitize c).
  destruct (Z.eqb_spec c 0) as [->|Hnz]; [reflexivity|].
  cbn [flat_map]. fold (sanitize c).
  rewrite c_str_app, IH; [reflexivity|].
  apply utf8_bytes_nonzero; [apply sanitize_scalar|].
  rewrite sanitize_zero. assumption.
Qed.

Lemma utf8_decode_toUtf8 (text : QString) :
  utf8_decode (toUtf8 text) = map sanitize text.
Proof.
  unfold toUtf8. induction text as [|c text IH]; [reflexivity|].
  cbn [flat_map map]. fold (sanitize c).
  rewrite utf8_roundtrip by apply sanitize_scalar. rewrite IH. reflexivity.
Qed.

(** The conversions of lines 145-146 lose what follows the first U+0000
    and nothing else. *)
Lemma utext_of_before_nul (text : QString) :
  utext_of text = utf16 (map sanitize (before_nul text)).
Proof.
  unfold utext_of, fromUTF8. rewrite c_str_toUtf8, utf8_decode_toUtf8.
  reflexivity.
Qed.

Lemma code_point_ends_units (c : Z) (rest : UnicodeString) (base : nat) :
  is_scalar c = true ->
  code_point_ends base (utf16_units c ++ rest)
  = (base + length (utf16_units c))%nat
      :: code_point_ends (base + length (utf16_units c)) rest.
Proof.
  intros Hc. destruct (scalar_bounds c Hc) as [Hr Hs]. unfold utf16_units.
  destruct (Z.ltb_spec c 0x10000).
  - cbn [app length code_point_ends]. destruct rest as [|lo rest']; [reflexivity|].
    rewrite (in_range_false 0xD800 0xDBFF c) by lia. reflexivity.
  - cbn [app length code_point_ends].
    rewrite (Z.shiftr_div_pow2 _ 10), (Z.land_ones _ 10) by lia.
    rewrite !in_range_true by arith. reflexivity.
Qed.

Lemma code_point_ends_utf16 (cps : list Z) :
  Forall (fun c => is_scalar c = true) cps ->
  forall base, length (code_point_ends base (utf16 cps)) = length cps.
Proof.
  unfold utf16. induction 1 as [|c cps Hc _ IH]; intros base; [reflexivity|].
  cbn [flat_map]. rewrite code_point_ends_units by assumption.
  cbn [length]. rewrite IH. reflexivity.
Qed.

Lemma before_nul_length (text : QString) :
  (length (before_nul text) <= length text)%nat.
Proof.
  induction text as [|c text IH]; [apply le_n|].
  cbn [before_nul]. destruct (c =? 0); cbn [length]; lia.
Qed.

(** The text seen by ICU has at most as many code points as the editor
    text has scalar values. *)
Lemma code_points_of_utext (text : QString) :
  (length (code_point_ends 0 (utext_of text)) <= length text)%nat.
Proof.
  rewrite utext_of_before_nul, code_point_ends_utf16.
  - rewrite length_map. apply before_nul_length.
  - apply Forall_forall. intros c Hin. apply in_map_iff in Hin.
    destruct Hin as [c' [<- _]]. apply sanitize_scalar.
Qed.

Lemma utext_of_nonempty (c : Z) (rest : QString) :
  c <> 0 -> utext_of (c :: rest) <> [].
Proof.
  intros Hc. rewrite utext_of_before_nul. cbn [before_nul].
  rewrite (proj2 (Z.eqb_neq c 0) Hc). cbn [map utf16 flat_map].
  unfold utf16_units. destruct (sanitize c <? 0x10000); discriminate.
Qed.

Lemma utext_of_leading_nul (rest : QString) : utext_of (0 :: rest) = [].
Proof. rewrite utext_of_before_nul. reflexivity. Qed.

Lemma before_nul_app_nul (a b : QString) :
  before_nul (a ++ 0 :: b) = before_nul a.
Proof.
  induction a as [|c a IH]; [reflexivity|].
  cbn [app before_nul]. destruct (c =? 0); [reflexivity|].
  rewrite IH. reflexivity.
Qed.

Lemma before_nul_without_nul (text : QString) :
  ~ In 0 text -> before_nul text = text.
Proof.
  induction text as [|c text IH]; intros Hnz; [reflexivity|].
  cbn [before_nul]. destruct (Z.eqb_spec c 0) as [->|_].
  - destruct Hnz. apply in_eq.
  - rewrite IH; [reflexivity|]. intros Hin. apply Hnz, in_cons, Hin.
Qed.

Lemma sanitize_valid (text : QString) :
  Forall (fun c => is_scalar c = true) text -> map sanitize text = text.
Proof.
  induction 1 as [|c text Hc _ IH]; [reflexivity|].
  cbn [map]. unfold sanitize at 1. rewrite Hc, IH. reflexivity.
Qed.

(** A text of scalar values without U+0000 is handed over as its UTF-16
    form. *)
Lemma utext_of_valid (text : QString) :
  Forall (fun c => is_scalar c = true) text ->
  ~ In 0 text ->
  utext_of text = utf16 text.
Proof.
  intros Hvalid Hnz.
  rewrite utext_of_before_nul, (before_nul_without_nul text Hnz).
  rewrite (sanitize_valid text Hvalid). reflexivity.
Qed.

(** With a U+0000 behind it, only that text is handed over. *)
Lemma utext_of_cut (a b : QString) :
  Forall (fun c => is_scalar c = true) a ->
  ~ In 0 a ->
  utext_of (a ++ 0 :: b) = utf16 a.
Proof.
  intros Hvalid Hnz.
  rewrite utext_of_before_nul, before_nul_app_nul.
  rewrite (before_nul_without_nul a Hnz), (sanitize_valid a Hvalid).
  reflexivity.
Qed.

(** ** Consequences of the boundary contract *)

Lemma increasing_above (bs : list nat) :
  forall prev, increasing prev bs = true -> Forall (fun b => (prev < b)%nat) bs.
Proof.
  induction bs as [|b bs IH]; intros prev H; [constructor|].
  cbn [increasing] in H. apply andb_true_iff in H. destruct H as [Hb Hrest].
  apply Nat.ltb_lt in Hb. constructor; [assumption|].
  apply (Forall_impl _ (P := fun x => (b < x)%nat)); [intros x Hx; lia|].
  apply IH. assumption.
Qed.

Lemma increasing_NoDup (bs : list nat) :
  forall prev, increasing prev bs = true -> NoDup bs.
Proof.
  induction bs as [|b bs IH]; intros prev H; [constructor|].
  cbn [increasing] in H. apply andb_true_iff in H. destruct H as [_ Hrest].
  constructor; [|apply (IH b); assumption].
  intros Hin. pose proof (increasing_above bs b Hrest) as Hall.
  rewrite Forall_forall in Hall. specialize (Hall b Hin). lia.
Qed.

Lemma boundaries_ok_parts (u : UnicodeString) (bs : list nat) :
  boundaries_ok u bs = true ->
  increasing 0 bs = true
  /\ incl bs (code_point_ends 0 u)
  /\ last bs 0%nat = length u.
Proof.
  unfold boundaries_ok. rewrite !andb_true_iff. intros [[Hinc Hin] Hlast].
  split; [assumption|]. split; [|apply Nat.eqb_eq; assumption].
  intros b Hb. rewrite forallb_forall in Hin. specialize (Hin b Hb).
  apply existsb_exists in Hin. destruct Hin as [x [Hx Heq]].
  apply Nat.eqb_eq in Heq. subst x. assumption.
Qed.

Lemma boundaries_ok_count (u : UnicodeString) (bs : list nat) :
  boundaries_ok u bs = true ->
  (length bs <= length (code_point_ends 0 u))%nat.
Proof.
  intros H. destruct (boundaries_ok_parts u bs H) as [Hinc [Hin _]].
  apply NoDup_incl_length; [apply (increasing_NoDup bs 0)|]; assumption.
Qed.

Lemma boundaries_ok_nonempty (u : UnicodeString) (bs : list nat) :
  boundaries_ok u bs = true -> u <> [] -> bs <> [].
Proof.
  intros H Hu ->. destruct (boundaries_ok_parts u [] H) as [_ [_ Hlast]].
  cbn [last] in Hlast. destruct u; [congruence|discriminate].
Qed.

Lemma boundaries_ok_empty (bs : list nat) :
  boundaries_ok [] bs = true -> bs = [].
Proof.
  intros H. destruct (boundaries_ok_parts [] bs H) as [_ [Hin _]].
  destruct bs as [|b bs]; [reflexivity|]. destruct (Hin b (in_eq b bs)).
Qed.

Lemma map_fst_nil (bs : list (nat * Z)) : map fst bs = [] -> bs = [].
Proof. destruct bs; [reflexivity|discriminate]. Qed.

Lemma words_by_empty (outcome : UErrorCode * option Rules) :
  contract outcome [] = true -> words_by outcome [] = 0.
Proof.
  destruct outcome as [code [r|]]; cbn [contract snd words_by]; [|reflexivity].
  intros H. apply boundaries_ok_empty, map_fst_nil in H.
  unfold segments. rewrite H. destruct (U_SUCCESS code); reflexivity.
Qed.

Lemma graphemes_by_empty (outcome : UErrorCode * option Rules) :
  contract outcome [] = true -> graphemes_by outcome [] = 0.
Proof.
  destruct outcome as [code [r|]]; cbn [contract snd graphemes_by]; [|reflexivity].
  intros H. apply boundaries_ok_empty, map_fst_nil in H.
  rewrite H. destruct (U_SUCCESS code); reflexivity.
Qed.

Lemma graphemes_by_bound (outcome : UErrorCode * option Rules)
    (u : UnicodeString) :
  contract outcome u = true ->
  graphemes_by outcome u <= Z.of_nat (length (code_point_ends 0 u)).
Proof.
  destruct outcome as [code [r|]]; cbn [contract snd graphemes_by]; [|lia].
  intros H. apply boundaries_ok_count in H. rewrite length_map in H.
  destruct (U_SUCCESS code); lia.
Qed.

Lemma graphemes_by_positive (outcome : UErrorCode * option Rules)
    (u : UnicodeString) :
  constructed outcome = true -> contract outcome u = true -> u <> [] ->
  1 <= graphemes_by outcome u.
Proof.
  destruct outcome as [code [r|]]; unfold constructed, contract, graphemes_by;
    cbn [fst snd]; intros Hc Hk Hu.
  - apply andb_true_iff in Hc. destruct Hc as [-> _].
    pose proof (boundaries_ok_nonempty _ _ Hk Hu) as Hne.
    destruct (r u); [contradiction|]. cbn [length]. lia.
  - rewrite andb_false_r in Hc. discriminate.
Qed.

(** ** The reference rule sets keep the boundary contract *)

Lemma units_ind (P : UnicodeString -> Prop) :
  P [] ->
  (forall hi, P [hi]) ->
  (forall hi lo rest, P rest -> P (lo :: rest) -> P (hi :: lo :: rest)) ->
  forall u, P u.
Proof.
  intros Hnil Hone Hstep u.
  enough (H : P u /\ forall x, P (x :: u)) by apply H.
  induction u as [|y u [IHu IHx]]; split; auto.
Qed.

Lemma code_point_ends_step (base : nat) (hi lo : Z) (rest : UnicodeString) :
  code_point_ends base (hi :: lo :: rest)
  = if in_range 0xD800 0xDBFF hi && in_range 0xDC00 0xDFFF lo
    then (base + 2)%nat :: code_point_ends (base + 2) rest
    else (base + 1)%nat :: code_point_ends (base + 1) (lo :: rest).
Proof. reflexivity. Qed.

Lemma code_points_step (hi lo : Z) (rest : UnicodeString) :
  UAX29.code_points (hi :: lo :: rest)
  = if in_range 0xD800 0xDBFF hi && in_range 0xDC00 0xDFFF lo
    then (0x10000 + (hi - 0xD800) * 0x400 + (lo - 0xDC00), 2%nat)
           :: UAX29.code_points rest
    else (hi, 1%nat) :: UAX29.code_points (lo :: rest).
Proof. reflexivity. Qed.

Lemma code_point_ends_offsets (u : UnicodeString) :
  forall base,
    code_point_ends base u = offsets_from base (map snd (UAX29.code_points u)).
Proof.
  induction u as [|hi|hi lo rest IHpair IHone] using units_ind; intros base;
    try reflexivity.
  rewrite code_point_ends_step, code_points_step.
  destruct (in_range 0xD800 0xDBFF hi && in_range 0xDC00 0xDFFF lo).
  - rewrite IHpair. reflexivity.
  - rewrite IHone. reflexivity.
Qed.

Lemma code_points_lengths (u : UnicodeString) :
  Forall (fun n => (1 <= n)%nat) (map snd (UAX29.code_points u))
  /\ list_sum (map snd (UAX29.code_points u)) = length u.
Proof.
  induction u as [|hi|hi lo rest [Fp Sp] [Fo So]] using units_ind.
  - split; [constructor|reflexivity].
  - split; [repeat constructor|reflexivity].
  - rewrite code_points_step.
    destruct (in_range 0xD800 0xDBFF hi && in_range 0xDC00 0xDFFF lo);
      rewrite map_cons; cbn [snd];
      (split; [constructor; [lia|assumption]|]);
      unfold list_sum in *; cbn [fold_right].
    + rewrite Sp. reflexivity.
    + rewrite So. reflexivity.
Qed.

Lemma increasing_weaken (bs : list nat) (p q : nat) :
  (p <= q)%nat -> increasing q bs = true -> increasing p bs = true.
Proof.
  destruct bs as [|b bs]; [reflexivity|]. cbn [increasing].
  rewrite !andb_true_iff, !Nat.ltb_lt. intros Hpq [Hb Hr]. split; [lia|exact Hr].
Qed.

Lemma cuts_nonempty (o : nat) (lens bs : list nat) : cuts o lens bs -> bs <> [].
Proof. induction 1; [discriminate|assumption|discriminate]. Qed.

Lemma cuts_sound (o : nat) (lens bs : list nat) :
  cuts o lens bs ->
  Forall (fun n => (1 <= n)%nat) lens ->
  (forall prev, (prev < o)%nat -> increasing prev bs = true)
  /\ incl bs (o :: offsets_from o lens)
  /\ last bs 0%nat = (o + list_sum lens)%nat.
Proof.
  induction 1 as [o|o n lens bs Hcuts IH|o n lens bs Hcuts IH]; intros Hlens.
  - split; [|split].
    + intros prev Hp. cbn [increasing]. rewrite andb_true_r.
      apply Nat.ltb_lt. assumption.
    + apply incl_refl.
    + cbn. lia.
  - inversion Hlens as [|? ? Hn Hrest]; subst.
    destruct (IH Hrest) as [Hinc [Hin Hlast]]. split; [|split].
    + intros prev Hp. apply (increasing_weaken bs prev o); [lia|].
      apply Hinc. lia.
    + cbn [offsets_from]. apply incl_tl. assumption.
    + rewrite Hlast. change (list_sum (n :: lens)) with (n + list_sum lens)%nat.
      lia.
  - inversion Hlens as [|? ? Hn Hrest]; subst.
    destruct (IH Hrest) as [Hinc [Hin Hlast]]. split; [|split].
    + intros prev Hp. cbn [increasing]. apply andb_true_iff. split.
      * apply Nat.ltb_lt. assumption.
      * apply Hinc. lia.
    + cbn [offsets_from]. apply incl_cons; [apply in_eq|].
      apply incl_tl. assumption.
    + pose proof (cuts_nonempty _ _ _ Hcuts) as Hne.
      destruct bs as [|b bs]; [contradiction|].
      change (last (o :: b :: bs) 0%nat) with (last (b :: bs) 0%nat).
      rewrite Hlast. change (list_sum (n :: lens)) with (n + list_sum lens)%nat.
      lia.
Qed.

(** Boundaries cut out of the code points of [u], the first code point
    passed, meet the contract. *)
Lemma cuts_boundaries_ok (u : UnicodeString) (c : Z) (n : nat)
    (rest : list (Z * nat)) (bs : list nat) :
  UAX29.code_points u = (c, n) :: rest ->
  cuts n (map snd rest) bs ->
  boundaries_ok u bs = true.
Proof.
  intros Hcps Hcuts.
  destruct (code_points_lengths u) as [Hlens Hsum].
  rewrite Hcps in Hlens, Hsum. rewrite map_cons in Hlens, Hsum.
  cbn [snd] in Hlens, Hsum.
  change (list_sum (n :: map snd rest))
    with (n + list_sum (map snd rest))%nat in Hsum.
  inversion Hlens as [|? ? Hn Hrest]; subst.
  destruct (cuts_sound _ _ _ Hcuts Hrest) as [Hinc [Hin Hlast]].
  unfold boundaries_ok. rewrite !andb_true_iff. split; [split|].
  - apply Hinc. lia.
  - apply forallb_forall. intros b Hb. apply existsb_exists. exists b.
    split; [|apply Nat.eqb_refl].
    rewrite code_point_ends_offsets, Hcps. cbn [map snd offsets_from].
    apply (Hin b Hb).
  - apply Nat.eqb_eq. rewrite Hlast. lia.
Qed.

Lemma grapheme_scan_cuts (cps : list (Z * nat)) :
  forall st offset,
    cuts offset (map snd cps) (UAX29.grapheme_scan st offset cps).
Proof.
  induction cps as [|[c n] cps IH]; intros st offset; [constructor|].
  cbn [UAX29.grapheme_scan map snd].
  destruct (UAX29.g_joined st (UAX29.grapheme_class c));
    [apply cuts_join|apply cuts_break]; apply IH.
Qed.

Lemma word_scan_cuts (cps : list (Z * nat)) :
  forall st offset tag,
    cuts offset (map snd cps) (map fst (UAX29.word_scan st offset tag cps)).
Proof.
  induction cps as [|[c n] cps IH]; intros st offset tag; [constructor|].
  cbn [UAX29.word_scan map snd].
  destruct (UAX29.w_joined st (UAX29.word_class c) (UAX29.lookahead cps)).
  - apply cuts_join, IH.
  - cbn [map fst]. apply cuts_break, IH.
Qed.

Lemma characterRules_contract (u : UnicodeString) :
  boundaries_ok u (map fst (UAX29.characterRules u)) = true.
Proof.
  unfold UAX29.characterRules, UAX29.grapheme_boundaries.
  rewrite map_map. cbn [fst]. rewrite map_id.
  destruct (UAX29.code_points u) as [|[c n] rest] eqn:Hcps.
  - destruct u as [|hi [|lo u]]; [reflexivity|discriminate|].
    rewrite code_points_step in Hcps.
    destruct (in_range 0xD800 0xDBFF hi && in_range 0xDC00 0xDFFF lo);
      discriminate.
  - apply (cuts_boundaries_ok u c n rest); [assumption|].
    apply grapheme_scan_cuts.
Qed.

Lemma wordRules_contract (u : UnicodeString) :
  boundaries_ok u (map fst (UAX29.wordRules u)) = true.
Proof.
  unfold UAX29.wordRules.
  destruct (UAX29.code_points u) as [|[c n] rest] eqn:Hcps.
  - destruct u as [|hi [|lo u]]; [reflexivity|discriminate|].
    rewrite code_points_step in Hcps.
    destruct (in_range 0xD800 0xDBFF hi && in_range 0xDC00 0xDFFF lo);
      discriminate.
  - apply (cuts_boundaries_ok u c n rest); [assumption|].
    apply word_scan_cuts.
Qed.

(** The contract holds of the reference installation on every text. *)
Lemma reference_library_contract (text : QString) :
  contract (wordInstance UAX29.library (getDefault UAX29.library))
           (utext_of text) = true
  /\ contract (characterInstance UAX29.library (getDefault UAX29.library))
              (utext_of text) = true.
Proof.
  split; [apply wordRules_contract|apply characterRules_contract].
Qed.

Lemma code_point_ends_length (u : UnicodeString) :
  forall base, (length (code_point_ends base u) <= length u)%nat.
Proof.
  induction u as [|hi|hi lo rest IHpair IHone] using units_ind; intros base;
    [apply le_n|apply le_n|].
  rewrite code_point_ends_step.
  destruct (in_range 0xD800 0xDBFF hi && in_range 0xDC00 0xDFFF lo).
  - specialize (IHpair (base + 2)%nat). cbn [length] in *. lia.
  - specialize (IHone (base + 1)%nat). cbn [length] in *. lia.
Qed.

Lemma words_by_nonneg (outcome : UErrorCode * option Rules)
    (u : UnicodeString) : 0 <= words_by outcome u.
Proof.
  destruct outcome as [code [r|]]; cbn [words_by]; [|lia].
  destruct (U_SUCCESS code); lia.
Qed.

Lemma graphemes_by_nonneg (outcome : UErrorCode * option Rules)
    (u : UnicodeString) : 0 <= graphemes_by outcome u.
Proof.
  destruct outcome as [code [r|]]; cbn [graphemes_by]; [|lia].
  destruct (U_SUCCESS code); lia.
Qed.

Lemma segments_from_length (bs : list (nat * Z)) :
  forall start, length (segments_from start bs) = length bs.
Proof.
  induction bs as [|[b tag] bs IH]; intros start; [reflexivity|].
  cbn [segments_from length]. rewrite IH. reflexivity.
Qed.

Lemma words_by_bound (outcome : UErrorCode * option Rules)
    (u : UnicodeString) :
  contract outcome u = true ->
  words_by outcome u <= Z.of_nat (length (code_point_ends 0 u)).
Proof.
  destruct outcome as [code [r|]]; cbn [contract snd words_by]; [|lia].
  intros H. apply boundaries_ok_count in H. rewrite length_map in H.
  pose proof (filter_length_le word_like (segments r u)) as Hf.
  unfold segments in *. rewrite segments_from_length in Hf.
  destruct (U_SUCCESS code); lia.
Qed.

(** X3. The counters are C [int]s; they never leave its range, the
    length of an ICU text being an [int32_t]. *)
Lemma counts_fit_int (icu : Library) (text : QString) :
  contract (wordInstance icu (getDefault icu)) (utext_of text) = true ->
  contract (characterInstance icu (getDefault icu)) (utext_of text) = true ->
  Z.of_nat (length (utext_of text)) <= 0x7FFFFFFF ->
  exists wordCount graphemes,
    stats icu text = Some (wordCount, graphemes)
    /\ 0 <= wordCount <= 0x7FFFFFFF /\ 0 <= graphemes <= 0x7FFFFFFF.
Proof.
  intros Hw Hc Hlen. eexists. eexists. split; [apply stats_closed|].
  pose proof (graphemes_by_bound _ _ Hc) as Hg.
  pose proof (words_by_bound _ _ Hw) as Hwb.
  pose proof (code_point_ends_length (utext_of text) 0) as Hcp.
  pose proof (words_by_nonneg (wordInstance icu (getDefault icu))
                (utext_of text)).
  pose proof (graphemes_by_nonneg (characterInstance icu (getDefault icu))
                (utext_of text)).
  lia.
Qed.

(** ** Properties of the statistics *)

(** C1 fails on the code where the text holds a U+0000: line 145 cuts the
    text there on its way to ICU, so with the word iterator constructed
    the count is the number of word-like segments of the part in front of
    the first U+0000; the words behind it are not counted. *)
Theorem word_count_stops_at_nul
    (icu : Library) (a b : QString) (code : UErrorCode) (r : Rules) :
  wordInstance icu (getDefault icu) = (code, Some r) ->
  U_SUCCESS code = true ->
  Forall (fun c => is_scalar c = true) a ->
  ~ In 0 a ->
  option_map fst (stats icu (a ++ 0 :: b))
  = Some (Z.of_nat (length (filter word_like (segments r (utf16 a))))).
Proof.
  intros Hload Hcode Hvalid Hnz.
  rewrite stats_closed, Hload, (utext_of_cut a b Hvalid Hnz).
  cbn [option_map fst]. unfold words_by. rewrite Hcode. reflexivity.
Qed.

(** "ab", U+0000, "cd ef": three word-like segments in the text, one
    counted. *)
Lemma word_count_stops_at_nul_witness :
  let snapshot := text_of_string "ab" ++ 0 :: text_of_string "cd ef" in
  Forall (fun c => is_scalar c = true) snapshot
  /\ UAX29.wordRules (utf16 snapshot)
     = [(2%nat, UBRK_WORD_LETTER); (3%nat, UBRK_WORD_NONE);
        (5%nat, UBRK_WORD_LETTER); (6%nat, UBRK_WORD_NONE);
        (8%nat, UBRK_WORD_LETTER)]
  /\ length (filter word_like (segments UAX29.wordRules (utf16 snapshot)))
     = 3%nat
  /\ option_map fst (stats UAX29.library snapshot) = Some 1.
Proof.
  intros snapshot. split; [repeat constructor|]. split; [reflexivity|].
  split; [reflexivity|].
  assert (Hvalid : Forall (fun c => is_scalar c = true) (text_of_string "ab"))
    by (repeat constructor).
  assert (Hnz : ~ In 0 (text_of_string "ab")).
  { cbn. intros [H|[H|[]]]; discriminate H. }
  exact (word_count_stops_at_nul UAX29.library (text_of_string "ab")
           (text_of_string "cd ef") U_ZERO_ERROR UAX29.wordRules
           eq_refl eq_refl Hvalid Hnz).
Defined.

(** C2 fails on the code where the text holds a U+0000, by the same cut
    of line 145: with the grapheme iterator constructed the count is the
    number of boundaries of the part in front of the first U+0000 minus
    one; the boundaries of the text behind it are never reported. *)
Theorem grapheme_count_stops_at_nul
    (icu : Library) (a b : QString) (code : UErrorCode) (r : Rules) :
  characterInstance icu (getDefault icu) = (code, Some r) ->
  U_SUCCESS code = true ->
  Forall (fun c => is_scalar c = true) a ->
  ~ In 0 a ->
  option_map snd (stats icu (a ++ 0 :: b))
  = Some (Z.of_nat (length (boundary_sequence r (utf16 a))) - 1).
Proof.
  intros Hload Hcode Hvalid Hnz.
  rewrite stats_closed, Hload, (utext_of_cut a b Hvalid Hnz).
  cbn [option_map snd]. unfold graphemes_by, boundary_sequence.
  rewrite Hcode. cbn [length]. rewrite length_map. f_equal. lia.
Qed.

(** "ab", U+0000, "cd ef": nine boundaries in the text, hence eight
    clusters; two are counted. *)
Lemma grapheme_count_stops_at_nul_witness :
  let snapshot := text_of_string "ab" ++ 0 :: text_of_string "cd ef" in
  Forall (fun c => is_scalar c = true) snapshot
  /\ boundary_sequence UAX29.characterRules (utf16 snapshot)
     = [0; 1; 2; 3; 4; 5; 6; 7; 8]%nat
  /\ option_map snd (stats UAX29.library snapshot) = Some 2.
Proof.
  intros snapshot. split; [repeat constructor|]. split; [reflexivity|].
  assert (Hvalid : Forall (fun c => is_scalar c = true) (text_of_string "ab"))
    by (repeat constructor).
  assert (Hnz : ~ In 0 (text_of_string "ab")).
  { cbn. intros [H|[H|[]]]; discriminate H. }
  exact (grapheme_count_stops_at_nul UAX29.library (text_of_string "ab")
           (text_of_string "cd ef") U_ZERO_ERROR UAX29.characterRules
           eq_refl eq_refl Hvalid Hnz).
Defined.

(** C3, as the specification states it, fails: with the word rules
    missing the call does not fail; it returns the grapheme count of the
    text next to a word count left at its initial 0. *)
Lemma partial_result_is_returned :
  constructed (wordInstance UAX29.library_without_word_rules
                 (getDefault UAX29.library_without_word_rules)) = false
  /\ stats UAX29.library_without_word_rules (text_of_string "a")
     = Some (0, 1)
  /\ stats UAX29.library (text_of_string "a") = Some (1, 1).
Proof. repeat split. Qed.

(** C3, amended.  The call never fails and always returns both counts:
    each is what its own iterator yields when that iterator is
    constructed, and 0 when it is not, whatever happened to the other. *)
Theorem both_counts_always_returned (icu : Library) (text : QString) :
  exists wordCount graphemes,
    stats icu text = Some (wordCount, graphemes)
    /\ wordCount = words_by (wordInstance icu (getDefault icu)) (utext_of text)
    /\ graphemes
       = graphemes_by (characterInstance icu (getDefault icu)) (utext_of text).
Proof.
  eexists. eexists. split; [apply stats_closed|]. split; reflexivity.
Qed.

(** C5. The empty text has no boundary behind offset 0, hence no segment:
    both counts are 0. *)
Theorem empty_snapshot_counts_zero (icu : Library) :
  contract (wordInstance icu (getDefault icu)) [] = true ->
  contract (characterInstance icu (getDefault icu)) [] = true ->
  stats icu [] = Some (0, 0).
Proof.
  intros Hw Hc. rewrite stats_closed. change (utext_of []) with (@nil Z).
  rewrite (words_by_empty _ Hw), (graphemes_by_empty _ Hc). reflexivity.
Qed.

Lemma empty_snapshot_counts_zero_witness :
  contract (wordInstance UAX29.library (getDefault UAX29.library)) [] = true
  /\ contract (characterInstance UAX29.library (getDefault UAX29.library)) []
     = true
  /\ stats UAX29.library [] = Some (0, 0).
Proof.
  split; [reflexivity|]. split; [reflexivity|].
  exact (empty_snapshot_counts_zero UAX29.library eq_refl eq_refl).
Defined.

(** C6. On "cafe" followed by U+0301, with both iterators constructed and
    segmenting this text as the rules of Annex 29 do (one word; the
    accent in one cluster with the "e"), the counts are 1 and 4. *)
Theorem cafe_counts
    (icu : Library) (cw cc : UErrorCode) (rw rc : Rules) :
  wordInstance icu (getDefault icu) = (cw, Some rw) ->
  U_SUCCESS cw = true ->
  characterInstance icu (getDefault icu) = (cc, Some rc) ->
  U_SUCCESS cc = true ->
  rw (utext_of cafe) = UAX29.wordRules (utext_of cafe) ->
  rc (utext_of cafe) = UAX29.characterRules (utext_of cafe) ->
  length cafe = 5%nat /\ stats icu cafe = Some (1, 4).
Proof.
  intros Hw Hcw Hc Hcc Hrw Hrc. split; [reflexivity|].
  rewrite stats_closed, Hw, Hc. unfold words_by, graphemes_by, segments.
  rewrite Hcw, Hcc, Hrw, Hrc. reflexivity.
Qed.

Lemma cafe_counts_witness :
  UAX29.wordRules (utext_of cafe) = [(5%nat, UBRK_WORD_LETTER)]
  /\ map fst (UAX29.characterRules (utext_of cafe)) = [1; 2; 3; 5]%nat
  /\ length cafe = 5%nat
  /\ stats UAX29.library cafe = Some (1, 4).
Proof.
  split; [reflexivity|]. split; [reflexivity|].
  exact (cafe_counts UAX29.library U_ZERO_ERROR U_ZERO_ERROR
           UAX29.wordRules UAX29.characterRules
           eq_refl eq_refl eq_refl eq_refl eq_refl eq_refl).
Defined.

(** C8. With boundaries as ICU promises them (strictly increasing, never
    inside a surrogate pair), the grapheme count is at most the number of
    scalar values of the text. *)
Theorem graphemes_at_most_scalar_values (icu : Library) (text : QString) :
  contract (characterInstance icu (getDefault icu)) (utext_of text) = true ->
  exists wordCount graphemes,
    stats icu text = Some (wordCount, graphemes)
    /\ graphemes <= Z.of_nat (length text).
Proof.
  intros Hk. eexists. eexists. split; [apply stats_closed|].
  pose proof (graphemes_by_bound _ _ Hk) as Hb.
  pose proof (code_points_of_utext text) as Hl. lia.
Qed.

Lemma graphemes_at_most_scalar_values_witness :
  let family := [0x1F468; 0x200D; 0x1F469; 0x200D; 0x1F467] in
  contract (characterInstance UAX29.library (getDefault UAX29.library))
           (utext_of family) = true
  /\ stats UAX29.library family = Some (0, 1)
  /\ exists wordCount graphemes,
       stats UAX29.library family = Some (wordCount, graphemes)
       /\ graphemes <= 5.
Proof.
  intros family. split; [reflexivity|]. split; [reflexivity|].
  exact (graphemes_at_most_scalar_values UAX29.library family eq_refl).
Defined.

(** C9. [updateStats] returns on every input and shows both counts in
    the status bar, the other members of the window untouched.  A count
    whose iterator was not constructed (failure code, or null) is 0; a
    count whose iterator was constructed is what that iterator yields on
    the text handed to it, also when the other one was not constructed. *)
Theorem unconstructed_iterator_counts_zero (icu : Library) (w : CodeEditor) :
  let utext := utext_of (editor_text w) in
  let words := wordInstance icu (getDefault icu) in
  let chars := characterInstance icu (getDefault icu) in
  exists wordCount graphemes,
    updateStats icu w
    = Some (mkEditor (editor_text w) (editor_modified w) (currentFile w)
              ("Words: " ++ decimal wordCount
               ++ " | Characters: " ++ decimal graphemes)%string)
    /\ (U_SUCCESS (fst words) = false \/ snd words = None -> wordCount = 0)
    /\ (U_SUCCESS (fst chars) = false \/ snd chars = None -> graphemes = 0)
    /\ (forall r, U_SUCCESS (fst words) = true -> snd words = Some r ->
          wordCount
          = Z.of_nat (length (filter word_like (segments r utext))))
    /\ (forall r, U_SUCCESS (fst chars) = true -> snd chars = Some r ->
          graphemes = Z.of_nat (length (boundary_sequence r utext)) - 1).
Proof.
  intros utext words chars. eexists. eexists.
  split; [apply updateStats_closed|]. fold utext words chars.
  split; [|split; [|split]].
  - destruct words as [code [r|]]; cbn [fst snd words_by].
    + intros [Hcode|Hnull]; [rewrite Hcode; reflexivity|discriminate Hnull].
    + reflexivity.
  - destruct chars as [code [r|]]; cbn [fst snd graphemes_by].
    + intros [Hcode|Hnull]; [rewrite Hcode; reflexivity|discriminate Hnull].
    + reflexivity.
  - destruct words as [code [r'|]]; cbn [fst snd words_by];
      intros r Hcode Hr; [|discriminate Hr].
    injection Hr as ->. rewrite Hcode. reflexivity.
  - destruct chars as [code [r'|]]; cbn [fst snd graphemes_by];
      intros r Hcode Hr; [|discriminate Hr].
    injection Hr as ->. rewrite Hcode. unfold boundary_sequence.
    cbn [length]. rewrite length_map. lia.
Qed.

(** With the word rules missing the status bar shows no word and the
    three clusters of "a b"; with the character rules missing, its two
    words and no cluster. *)
Lemma unconstructed_iterator_counts_zero_witness :
  let w := mkEditor (text_of_string "a b") true "notes.txt" "Ready" in
  updateStats UAX29.library_without_word_rules w
  = Some (mkEditor (text_of_string "a b") true "notes.txt"
                   "Words: 0 | Characters: 3")
  /\ updateStats UAX29.library_without_character_rules w
     = Some (mkEditor (text_of_string "a b") true "notes.txt"
                      "Words: 2 | Characters: 0").
Proof.
  intros w. split.
  - destruct (unconstructed_iterator_counts_zero
                UAX29.library_without_word_rules w)
      as (wordCount & graphemes & Hshown & Hwords & _ & _ & Hchars).
    rewrite Hshown, (Hwords (or_intror eq_refl)).
    rewrite (Hchars UAX29.characterRules eq_refl eq_refl). reflexivity.
  - destruct (unconstructed_iterator_counts_zero
                UAX29.library_without_character_rules w)
      as (wordCount & graphemes & Hshown & _ & Hchars & Hwords & _).
    rewrite Hshown, (Hchars (or_intror eq_refl)).
    rewrite (Hwords UAX29.wordRules eq_refl eq_refl). reflexivity.
Defined.

(** C10 fails on the code: the text is cut at its first U+0000 on the way
    to ICU, so a text that begins with U+0000 reaches the constructed
    grapheme iterator empty and the count is 0. *)
Theorem leading_nul_counts_no_grapheme
    (icu : Library) (rest : QString) (code : UErrorCode) (r : Rules) :
  characterInstance icu (getDefault icu) = (code, Some r) ->
  U_SUCCESS code = true ->
  boundary_sequence r [] = [0%nat] ->
  0 :: rest <> [] /\ option_map snd (stats icu (0 :: rest)) = Some 0.
Proof.
  intros Hload Hcode Hempty. split; [discriminate|].
  rewrite stats_closed, Hload, utext_of_leading_nul. cbn [option_map snd].
  unfold boundary_sequence in Hempty. injection Hempty as Hempty.
  apply map_fst_nil in Hempty. unfold graphemes_by.
  rewrite Hcode, Hempty. reflexivity.
Qed.

Lemma leading_nul_counts_no_grapheme_witness :
  characterInstance UAX29.library (getDefault UAX29.library)
    = (U_ZERO_ERROR, Some UAX29.characterRules)
  /\ boundary_sequence UAX29.characterRules [] = [0%nat]
  /\ 0 :: text_of_string "abc" <> []
  /\ option_map snd (stats UAX29.library (0 :: text_of_string "abc"))
     = Some 0.
Proof.
  split; [reflexivity|]. split; [reflexivity|].
  exact (leading_nul_counts_no_grapheme UAX29.library
           (text_of_string "abc") U_ZERO_ERROR UAX29.characterRules
           eq_refl eq_refl eq_refl).
Defined.

(** X7. Where the statement of C10 does hold: a text that does not begin
    with U+0000 has at least one grapheme, the iterator constructed and
    its boundaries as ICU promises them. *)
Lemma grapheme_count_positive (icu : Library) (c : Z) (rest : QString) :
  c <> 0 ->
  constructed (characterInstance icu (getDefault icu)) = true ->
  contract (characterInstance icu (getDefault icu)) (utext_of (c :: rest))
    = true ->
  exists wordCount graphemes,
    stats icu (c :: rest) = Some (wordCount, graphemes) /\ 1 <= graphemes.
Proof.
  intros Hc Hok Hk. eexists. eexists. split; [apply stats_closed|].
  apply graphemes_by_positive; [assumption..|].
  apply utext_of_nonempty. assumption.
Qed.

(** ** The locale *)

(** X6. Both factories are called with [Locale::getDefault()] and
    nothing else: what ICU has for any other locale has no effect. *)
Lemma stats_default_locale_only (icu icu' : Library) (text : QString) :
  wordInstance icu (getDefault icu) = wordInstance icu' (getDefault icu') ->
  characterInstance icu (getDefault icu)
    = characterInstance icu' (getDefault icu') ->
  stats icu text = stats icu' text.
Proof. intros Hw Hc. rewrite !stats_closed, Hw, Hc. reflexivity. Qed.

(** X5. A warning code, such as the one ICU sets when it serves a locale
    from a fallback rule set, passes the guards like [U_ZERO_ERROR]. *)
Lemma warning_passes_guard (icu icu' : Library) (text : QString)
    (cw cc : UErrorCode) (rw rc : Rules) :
  wordInstance icu (getDefault icu) = (cw, Some rw) ->
  characterInstance icu (getDefault icu) = (cc, Some rc) ->
  cw <= U_ZERO_ERROR -> cc <= U_ZERO_ERROR ->
  wordInstance icu' (getDefault icu') = (U_ZERO_ERROR, Some rw) ->
  characterInstance icu' (getDefault icu') = (U_ZERO_ERROR, Some rc) ->
  stats icu text = stats icu' text.
Proof.
  intros Hw Hc Hcw Hcc Hw' Hc'. rewrite !stats_closed, Hw, Hc, Hw', Hc'.
  unfold words_by, graphemes_by, U_SUCCESS.
  rewrite (proj2 (Z.leb_le cw U_ZERO_ERROR) Hcw).
  rewrite (proj2 (Z.leb_le cc U_ZERO_ERROR) Hcc). reflexivity.
Qed.

(** A failure code is answered by a count of 0; no other locale is tried. *)
Lemma failure_leaves_zero (icu : Library) (text : QString) :
  constructed (wordInstance icu (getDefault icu)) = false ->
  constructed (characterInstance icu (getDefault icu)) = false ->
  stats icu text = Some (0, 0).
Proof.
  intros Hw Hc. rewrite stats_closed. f_equal. f_equal.
  - destruct (wordInstance icu (getDefault icu)) as [cw [rw|]];
      [|reflexivity].
    unfold constructed in Hw. cbn [fst snd] in Hw.
    rewrite andb_true_r in Hw. cbn [words_by]. rewrite Hw. reflexivity.
  - destruct (characterInstance icu (getDefault icu)) as [cc [rc|]];
      [|reflexivity].
    unfold constructed in Hc. cbn [fst snd] in Hc.
    rewrite andb_true_r in Hc. cbn [graphemes_by]. rewrite Hc. reflexivity.
Qed.

(** ** The scenarios of the specification on the reference rule sets *)

Example hello_world :
  stats UAX29.library (text_of_string "Hello, world!") = Some (2, 13).
Proof. reflexivity. Qed.

Example three_spaces :
  stats UAX29.library (text_of_string "   ") = Some (0, 3).
Proof. reflexivity. Qed.

Example family_emoji :
  length [0x1F468; 0x200D; 0x1F469; 0x200D; 0x1F467] = 5%nat
  /\ option_map snd
       (stats UAX29.library [0x1F468; 0x200D; 0x1F469; 0x200D; 0x1F467])
     = Some 1.
Proof. split; reflexivity. Qed.

(** ** More on the statistics *)

(** X1. A U+0000 in the editor text ends what is counted: the text up to
    it gives the same two counts with or without the U+0000 and whatever
    follows it. *)
Theorem text_after_nul_is_not_counted (icu : Library) (a b : QString) :
  stats icu (a ++ 0 :: b) = stats icu a.
Proof.
  rewrite !stats_closed, !utext_of_before_nul, before_nul_app_nul.
  reflexivity.
Qed.

(** X2. A text of scalar values without U+0000 reaches ICU whole: the
    conversions of lines 145-146 hand over exactly its UTF-16 form, with
    one code point for every scalar value. *)
Theorem valid_text_reaches_icu_whole (text : QString) :
  Forall (fun c => is_scalar c = true) text ->
  ~ In 0 text ->
  utext_of text = utf16 text
  /\ length (code_point_ends 0 (utext_of text)) = length text.
Proof.
  intros Hvalid Hnz.
  assert (Hu : utext_of text = utf16 text).
  { rewrite utext_of_before_nul, (before_nul_without_nul text Hnz).
    rewrite (sanitize_valid text Hvalid). reflexivity. }
  split; [exact Hu|]. rewrite Hu. apply code_point_ends_utf16. exact Hvalid.
Qed.

Lemma valid_text_reaches_icu_whole_witness :
  let text := [0x1F468; 0x200D; 0xE9; 0x20AC] in
  utext_of text = [0xD83D; 0xDC68; 0x200D; 0xE9; 0x20AC]
  /\ length (code_point_ends 0 (utext_of text)) = 4%nat.
Proof.
  intros text. apply (valid_text_reaches_icu_whole text).
  - repeat constructor.
  - cbn [In]. intros [H|[H|[H|[H|[]]]]]; discriminate H.
Defined.

(** X26. The statement of C1 where the code keeps it: on a text of
    scalar values without U+0000, with the word iterator constructed, the
    word count is the number of segments of the text itself whose rule
    status is not [UBRK_WORD_NONE]; together with the segments of status
    "none" it makes up the number of segments. *)
Theorem word_count_without_nul
    (icu : Library) (text : QString) (code : UErrorCode) (r : Rules) :
  wordInstance icu (getDefault icu) = (code, Some r) ->
  U_SUCCESS code = true ->
  Forall (fun c => is_scalar c = true) text ->
  ~ In 0 text ->
  exists wordCount graphemes,
    stats icu text = Some (wordCount, graphemes)
    /\ wordCount
       = Z.of_nat (length (filter word_like (segments r (utf16 text))))
    /\ wordCount
       + Z.of_nat (length (filter (fun s => negb (word_like s))
                                  (segments r (utf16 text))))
       = Z.of_nat (length (segments r (utf16 text))).
Proof.
  intros Hload Hcode Hvalid Hnz. eexists. eexists.
  split; [apply stats_closed|].
  rewrite Hload, (utext_of_valid text Hvalid Hnz). unfold words_by.
  rewrite Hcode. split; [reflexivity|].
  rewrite <- Nat2Z.inj_add, filter_length. reflexivity.
Qed.

Lemma word_count_without_nul_witness :
  let text := text_of_string "Hello, world!" in
  Forall (fun c => is_scalar c = true) text
  /\ length (segments UAX29.wordRules (utf16 text)) = 5%nat
  /\ exists wordCount graphemes,
       stats UAX29.library text = Some (wordCount, graphemes)
       /\ wordCount = 2
       /\ wordCount + 3 = 5.
Proof.
  intros text.
  assert (Hvalid : Forall (fun c => is_scalar c = true) text)
    by (repeat constructor).
  assert (Hnz : ~ In 0 text).
  { cbn. intros H. repeat (destruct H as [H|H]; [discriminate H|]). exact H. }
  split; [exact Hvalid|]. split; [reflexivity|].
  exact (word_count_without_nul UAX29.library text U_ZERO_ERROR
           UAX29.wordRules eq_refl eq_refl Hvalid Hnz).
Defined.

(** X27. The statement of C2 where the code keeps it: on a text of
    scalar values without U+0000, with the grapheme iterator constructed,
    the grapheme count is the number of boundaries of the text itself
    ([first] and every [next]) minus one. *)
Theorem grapheme_count_without_nul
    (icu : Library) (text : QString) (code : UErrorCode) (r : Rules) :
  characterInstance icu (getDefault icu) = (code, Some r) ->
  U_SUCCESS code = true ->
  Forall (fun c => is_scalar c = true) text ->
  ~ In 0 text ->
  option_map snd (stats icu text)
  = Some (Z.of_nat (length (boundary_sequence r (utf16 text))) - 1).
Proof.
  intros Hload Hcode Hvalid Hnz.
  rewrite stats_closed, Hload, (utext_of_valid text Hvalid Hnz).
  cbn [option_map snd]. unfold graphemes_by, boundary_sequence.
  rewrite Hcode. cbn [length]. rewrite length_map. f_equal. lia.
Qed.

Lemma grapheme_count_without_nul_witness :
  Forall (fun c => is_scalar c = true) cafe
  /\ boundary_sequence UAX29.characterRules (utf16 cafe)
     = [0; 1; 2; 3; 5]%nat
  /\ option_map snd (stats UAX29.library cafe) = Some 4.
Proof.
  assert (Hvalid : Forall (fun c => is_scalar c = true) cafe)
    by (repeat constructor).
  assert (Hnz : ~ In 0 cafe).
  { cbn. intros H. repeat (destruct H as [H|H]; [discriminate H|]). exact H. }
  split; [exact Hvalid|]. split; [reflexivity|].
  exact (grapheme_count_without_nul UAX29.library cafe U_ZERO_ERROR
           UAX29.characterRules eq_refl eq_refl Hvalid Hnz).
Defined.

(** X4. With boundaries as ICU promises them, the word count lies between
    0 and the number of scalar values of the text. *)
Theorem words_at_most_scalar_values (icu : Library) (text : QString) :
  contract (wordInstance icu (getDefault icu)) (utext_of text) = true ->
  exists wordCount graphemes,
    stats icu text = Some (wordCount, graphemes)
    /\ 0 <= wordCount <= Z.of_nat (length text).
Proof.
  intros Hk. eexists. eexists. split; [apply stats_closed|].
  pose proof (words_by_bound _ _ Hk) as Hb.
  pose proof (words_by_nonneg (wordInstance icu (getDefault icu))
                (utext_of text)) as H0.
  pose proof (code_points_of_utext text) as Hl. lia.
Qed.

Lemma words_at_most_scalar_values_witness :
  contract (wordInstance UAX29.library (getDefault UAX29.library))
           (utext_of (text_of_string "a b c")) = true
  /\ exists wordCount graphemes,
       stats UAX29.library (text_of_string "a b c")
         = Some (wordCount, graphemes)
       /\ 0 <= wordCount <= 5.
Proof.
  split; [reflexivity|].
  exact (words_at_most_scalar_values UAX29.library (text_of_string "a b c")
           eq_refl).
Defined.

Lemma counts_fit_int_witness :
  contract (wordInstance UAX29.library (getDefault UAX29.library))
           (utext_of cafe) = true
  /\ contract (characterInstance UAX29.library (getDefault UAX29.library))
              (utext_of cafe) = true
  /\ Z.of_nat (length (utext_of cafe)) <= 0x7FFFFFFF
  /\ exists wordCount graphemes,
       stats UAX29.library cafe = Some (wordCount, graphemes)
       /\ 0 <= wordCount <= 0x7FFFFFFF /\ 0 <= graphemes <= 0x7FFFFFFF.
Proof.
  split; [reflexivity|]. split; [reflexivity|].
  assert (Hlen : Z.of_nat (length (utext_of cafe)) <= 0x7FFFFFFF)
    by (cbv; discriminate).
  split; [exact Hlen|].
  exact (counts_fit_int UAX29.library cafe eq_refl eq_refl Hlen).
Defined.

Lemma grapheme_count_positive_witness :
  0x63 <> 0
  /\ constructed (characterInstance UAX29.library (getDefault UAX29.library))
     = true
  /\ exists wordCount graphemes,
       stats UAX29.library cafe = Some (wordCount, graphemes)
       /\ 1 <= graphemes.
Proof.
  assert (Hc : 0x63 <> 0) by discriminate.
  split; [exact Hc|]. split; [reflexivity|].
  exact (grapheme_count_positive UAX29.library 0x63 [0x61; 0x66; 0x65; 0x301]
           Hc eq_refl eq_refl).
Defined.

(** An installation that serves every locale from its fallback rule sets
    and says so. *)
Lemma warning_passes_guard_witness :
  let fallback :=
    mkLibrary "xx_XX"%string
      (fun _ => (U_USING_DEFAULT_WARNING, Some UAX29.wordRules))
      (fun _ => (U_USING_DEFAULT_WARNING, Some UAX29.characterRules)) in
  U_USING_DEFAULT_WARNING <= U_ZERO_ERROR
  /\ stats fallback cafe = stats UAX29.library cafe.
Proof.
  intros fallback.
  assert (Hw : U_USING_DEFAULT_WARNING <= U_ZERO_ERROR) by (cbv; discriminate).
  split; [exact Hw|].
  exact (warning_passes_guard fallback UAX29.library cafe
           U_USING_DEFAULT_WARNING U_USING_DEFAULT_WARNING
           UAX29.wordRules UAX29.characterRules
           eq_refl eq_refl Hw Hw eq_refl eq_refl).
Defined.

Lemma stats_default_locale_only_witness :
  let partial :=
    mkLibrary "en_US"%string
      (fun loc => if String.eqb loc "en_US"%string
                  then (U_ZERO_ERROR, Some UAX29.wordRules)
                  else (U_MISSING_RESOURCE_ERROR, None))
      (fun loc => if String.eqb loc "en_US"%string
                  then (U_ZERO_ERROR, Some UAX29.characterRules)
                  else (U_MISSING_RESOURCE_ERROR, None)) in
  stats partial cafe = stats UAX29.library cafe.
Proof.
  intros partial.
  exact (stats_default_locale_only partial UAX29.library cafe
           eq_refl eq_refl).
Defined.

(** ** Construction and the file slots *)

Lemma editor_setText_closed (p : Platform) (w : CodeEditor) (t : QString) :
  editor_setText p w t
  = Some (mkEditor t (editor_modified w) (currentFile w)
            (if textChanged p (editor_text w) t
             then message
                    (words_by (wordInstance (installed p)
                                 (getDefault (installed p))) (utext_of t))
                    (graphemes_by (characterInstance (installed p)
                                     (getDefault (installed p))) (utext_of t))
             else statusBar w)).
Proof.
  unfold editor_setText. destruct (textChanged p (editor_text w) t);
    [rewrite updateStats_closed|]; reflexivity.
Qed.

Lemma saveFile_named (fuel : nat) (p : Platform) (a : Answers) (d : Desktop) :
  isEmpty (currentFile (window d)) = false ->
  saveFile (S fuel) p a d = Some (write_current p d).
Proof. intros H. cbn [saveFile]. rewrite H. reflexivity. Qed.

(** Whatever [saveFile] returns is its closed form. *)
Lemma saveFile_sound (fuel : nat) (p : Platform) (a : Answers) (d : Desktop)
    (r : bool * Desktop) :
  saveFile fuel p a d = Some r -> r = save_outcome p a d.
Proof.
  unfold save_outcome. destruct fuel as [|fuel]; [discriminate|].
  cbn [saveFile]. destruct (isEmpty (currentFile (window d))) eqn:E.
  - destruct fuel as [|fuel]; [discriminate|]. cbn [saveFileAs].
    destruct (isEmpty (getSaveFileName a)) eqn:E2; [congruence|].
    destruct fuel as [|fuel]; [discriminate|].
    rewrite saveFile_named by exact E2. congruence.
  - congruence.
Qed.



Lemma lookup_store (files : Disk) (name : string) (bytes : QByteArray) :
  lookup (store files name bytes) name = Some bytes.
Proof. unfold store. cbn [lookup]. rewrite String.eqb_refl. reflexivity. Qed.

Lemma lookup_store_other (files : Disk) (name other : string)
    (bytes : QByteArray) :
  other <> name -> lookup (store files name bytes) other = lookup files other.
Proof.
  intros Hne. unfold store. cbn [lookup].
  destruct (String.eqb_spec name other) as [Heq|_]; [congruence|reflexivity].
Qed.

(** The three ways through lines 236-254. *)
Lemma write_current_cases (p : Platform) (d : Desktop) :
  let file := currentFile (window d) in
  let bytes := toUtf8 (editor_text (window d)) in
  (writable p file = false
   /\ write_current p d
      = (false, show d (Warning "Save Failed"
                          ("Cannot save file: " ++ errorString p file)%string)))
  \/ (writable p file = true /\ write p file bytes = -1
      /\ write_current p d
         = (false,
            mkDesktop (window d) (store (disk d) file [])
                      (shown d ++ [Warning "Save Failed"
                                     ("Failed to write file: " ++ file)%string])))
  \/ (writable p file = true /\ write p file bytes <> -1
      /\ write_current p d
         = (true,
            mkDesktop (mkEditor (editor_text (window d)) false file
                                ("Saved: " ++ file)%string)
                      (store (disk d) file
                             (firstn (Z.to_nat (write p file bytes)) bytes))
                      (shown d))).
Proof.
  intros file bytes. unfold write_current. fold file. fold bytes.
  destruct (writable p file); cbn [negb]; [right|left; split; reflexivity].
  unfold written_file.
  destruct (Z.eq_dec (write p file bytes) (-1)) as [Heq|Hne].
  - left. split; [reflexivity|]. split; [exact Heq|]. rewrite Heq. reflexivity.
  - right. split; [reflexivity|]. split; [exact Hne|].
    rewrite (proj2 (Z.eqb_neq _ _) Hne). reflexivity.
Qed.

Lemma write_current_true (p : Platform) (d d' : Desktop) :
  write_current p d = (true, d') ->
  let file := currentFile (window d) in
  let bytes := toUtf8 (editor_text (window d)) in
  writable p file = true
  /\ write p file bytes <> -1
  /\ d' = mkDesktop (mkEditor (editor_text (window d)) false file
                              ("Saved: " ++ file)%string)
                    (store (disk d) file
                           (firstn (Z.to_nat (write p file bytes)) bytes))
                    (shown d).
Proof.
  intros H file bytes.
  destruct (write_current_cases p d) as [[_ E]|[[_ [_ E]]|[Hw [Hn E]]]];
    rewrite E in H; inversion H; subst. auto.
Qed.

Lemma write_current_false (p : Platform) (d d' : Desktop) :
  write_current p d = (false, d') ->
  let file := currentFile (window d) in
  window d' = window d
  /\ (disk d' = disk d
      \/ (writable p file = true
          /\ write p file (toUtf8 (editor_text (window d))) = -1
          /\ disk d' = store (disk d) file []))
  /\ exists text, shown d' = shown d ++ [Warning "Save Failed" text].
Proof.
  intros H file.
  destruct (write_current_cases p d) as [[_ E]|[[Hw [Hn E]]|[_ [_ E]]]];
    rewrite E in H; inversion H; subst; cbn [window disk shown show].
  - split; [reflexivity|]. split; [left; reflexivity|]. eexists. reflexivity.
  - split; [reflexivity|]. split; [right; auto|]. eexists. reflexivity.
Qed.

(** The three ways into and through [saveFile]. *)
Lemma save_outcome_cases (p : Platform) (a : Answers) (d : Desktop) :
  let name := getSaveFileName a in
  let asked := SaveFileName "Save File As" in
  (isEmpty (currentFile (window d)) = false
   /\ save_outcome p a d = write_current p d)
  \/ (isEmpty (currentFile (window d)) = true /\ isEmpty name = true
      /\ save_outcome p a d = (false, show d asked))
  \/ (isEmpty (currentFile (window d)) = true /\ isEmpty name = false
      /\ save_outcome p a d
         = write_current p
             (mkDesktop (setCurrentFile (window d) name) (disk d)
                        (shown d ++ [asked]))).
Proof.
  intros name asked. unfold save_outcome. fold name.
  destruct (isEmpty (currentFile (window d))); [right|left; auto].
  destruct (isEmpty name); [left|right]; auto.
Qed.

Lemma isEmpty_true (s : string) : isEmpty s = true -> s = ""%string.
Proof. destruct s; [reflexivity|discriminate]. Qed.

Lemma save_outcome_true (p : Platform) (a : Answers) (d d' : Desktop) :
  save_outcome p a d = (true, d') ->
  let file := currentFile (window d') in
  let bytes := toUtf8 (editor_text (window d)) in
  isEmpty file = false
  /\ (file = currentFile (window d)
      \/ (currentFile (window d) = ""%string /\ file = getSaveFileName a))
  /\ window d'
     = mkEditor (editor_text (window d)) false file ("Saved: " ++ file)%string
  /\ writable p file = true
  /\ write p file bytes <> -1
  /\ lookup (disk d') file
     = Some (firstn (Z.to_nat (write p file bytes)) bytes)
  /\ (forall other, other <> file ->
        lookup (disk d') other = lookup (disk d) other)
  /\ (shown d' = shown d
      \/ shown d' = shown d ++ [SaveFileName "Save File As"]).
Proof.
  intros H.
  destruct (save_outcome_cases p a d) as [[Hc E]|[[Hc [Hn E]]|[Hc [Hn E]]]];
    rewrite E in H; [|discriminate|];
    apply write_current_true in H; destruct H as [Hw [Hr ->]];
    cbn [window disk shown currentFile editor_text setCurrentFile] in *.
  - split; [exact Hc|]. split; [left; reflexivity|].
    split; [reflexivity|]. split; [exact Hw|]. split; [exact Hr|].
    split; [apply lookup_store|]. split; [|left; reflexivity].
    intros other Ho. apply lookup_store_other. exact Ho.
  - split; [exact Hn|].
    split; [right; split; [apply isEmpty_true, Hc|reflexivity]|].
    split; [reflexivity|]. split; [exact Hw|]. split; [exact Hr|].
    split; [apply lookup_store|]. split; [|right; reflexivity].
    intros other Ho. apply lookup_store_other. exact Ho.
Qed.

Lemma save_outcome_false (p : Platform) (a : Answers) (d d' : Desktop) :
  save_outcome p a d = (false, d') ->
  let file := currentFile (window d') in
  editor_text (window d') = editor_text (window d)
  /\ editor_modified (window d') = editor_modified (window d)
  /\ statusBar (window d') = statusBar (window d)
  /\ (disk d' = disk d
      \/ (writable p file = true
          /\ write p file (toUtf8 (editor_text (window d))) = -1
          /\ disk d' = store (disk d) file []
          /\ lookup (disk d') file = Some []))
  /\ exists new,
       shown d' = shown d ++ new
       /\ (count_shown is_warning new <= 1)%nat
       /\ (count_shown is_save_dialog new <= 1)%nat
       /\ count_shown is_question new = 0%nat
       /\ count_shown is_open_dialog new = 0%nat.
Proof.
  intros H.
  destruct (save_outcome_cases p a d) as [[Hc E]|[[Hc [Hn E]]|[Hc [Hn E]]]];
    rewrite E in H.
  - apply write_current_false in H.
    destruct H as [Hwin [Hdisk [text Hshown]]]. rewrite Hwin.
    repeat (split; [reflexivity|]). split.
    + destruct Hdisk as [Hd|[Hw [Hr Hd]]]; [left; exact Hd|right].
      rewrite Hd. repeat (split; [assumption || reflexivity|]).
      apply lookup_store.
    + exists [Warning "Save Failed" text]. split; [exact Hshown|].
      cbn. lia.
  - inversion H; subst. cbn [window disk shown show].
    repeat (split; [reflexivity|]). split; [left; reflexivity|].
    exists [SaveFileName "Save File As"]. split; [reflexivity|]. cbn. lia.
  - apply write_current_false in H.
    destruct H as [Hwin [Hdisk [text Hshown]]]. rewrite Hwin.
    cbn [window disk shown currentFile editor_text editor_modified statusBar
         setCurrentFile] in *.
    repeat (split; [reflexivity|]). split.
    + destruct Hdisk as [Hd|[Hw [Hr Hd]]]; [left; exact Hd|right].
      rewrite Hd. repeat (split; [assumption || reflexivity|]).
      apply lookup_store.
    + exists [SaveFileName "Save File As"; Warning "Save Failed" text].
      split; [rewrite Hshown, <- app_assoc; reflexivity|]. cbn. lia.
Qed.

(** X9. When [saveFile] reports success, the text went to the file named
    by [currentFile] (the name chosen in the dialog if there was none),
    which could be opened and written: the file holds the bytes [write]
    accepted, no other file changed, the text is as before, the editor
    is unmodified and the status bar names the file. *)
Theorem saveFile_success
    (fuel : nat) (p : Platform) (a : Answers) (d d' : Desktop) :
  saveFile fuel p a d = Some (true, d') ->
  let file := currentFile (window d') in
  let bytes := toUtf8 (editor_text (window d)) in
  isEmpty file = false
  /\ (file = currentFile (window d)
      \/ (currentFile (window d) = ""%string /\ file = getSaveFileName a))
  /\ window d'
     = mkEditor (editor_text (window d)) false file ("Saved: " ++ file)%string
  /\ writable p file = true
  /\ write p file bytes <> -1
  /\ lookup (disk d') file
     = Some (firstn (Z.to_nat (write p file bytes)) bytes)
  /\ forall other, other <> file ->
       lookup (disk d') other = lookup (disk d) other.
Proof.
  intros H. apply saveFile_sound in H. symmetry in H.
  pose proof (save_outcome_true p a d d' H) as F. cbv zeta in F.
  destruct F as (F1 & F2 & F3 & F4 & F5 & F6 & F7 & _).
  exact (conj F1 (conj F2 (conj F3 (conj F4 (conj F5 (conj F6 F7)))))).
Qed.

Lemma saveFile_success_witness :
  let a := mkAnswers Cancel "" "notes.txt" in
  let d' :=
    mkDesktop (mkEditor (text_of_string "Hi there") false "notes.txt"
                        "Saved: notes.txt")
              [("notes.txt"%string, text_of_string "Hi there")]
              [SaveFileName "Save File As"] in
  saveFile 3 obliging a draft = Some (true, d')
  /\ lookup (disk d') "notes.txt" = Some (text_of_string "Hi there")
  /\ window d'
     = mkEditor (text_of_string "Hi there") false "notes.txt" "Saved: notes.txt".
Proof.
  intros a d'. split; [reflexivity|].
  pose proof (saveFile_success 3 obliging a draft d' eq_refl) as H.
  cbv zeta in H. destruct H as [_ [_ [Hw [_ [_ [Hl _]]]]]].
  split; [exact Hl|exact Hw].
Defined.

(** X10. The only result of [write] taken for a failure is -1: when
    [write] accepts fewer bytes than the text has, [saveFile] still
    reports success, marks the editor unmodified and shows "Saved", while
    the file holds only the bytes accepted. *)
Theorem short_write_is_reported_saved
    (fuel : nat) (p : Platform) (a : Answers) (d : Desktop) :
  let file := currentFile (window d) in
  let bytes := toUtf8 (editor_text (window d)) in
  (1 <= fuel)%nat ->
  isEmpty file = false ->
  writable p file = true ->
  0 <= write p file bytes < Z.of_nat (length bytes) ->
  exists d' kept,
    saveFile fuel p a d = Some (true, d')
    /\ editor_modified (window d') = false
    /\ statusBar (window d') = ("Saved: " ++ file)%string
    /\ lookup (disk d') file = Some kept
    /\ (length kept < length bytes)%nat.
Proof.
  intros file bytes Hfuel Hc Hw Hn.
  destruct fuel as [|fuel]; [lia|]. rewrite saveFile_named by exact Hc.
  pose proof (write_current_cases p d) as C. cbv zeta in C.
  unfold file, bytes in *. clear file bytes.
  destruct C as [[Hw' _]|[[_ [Hn' _]]|[_ [_ E]]]]; [congruence|lia|].
  rewrite E. eexists. eexists. split; [reflexivity|].
  cbn [window disk editor_modified statusBar].
  split; [reflexivity|]. split; [reflexivity|]. split; [apply lookup_store|].
  rewrite length_firstn. lia.
Qed.

Lemma short_write_is_reported_saved_witness :
  let a := mkAnswers Cancel "" "" in
  (1 <= 1)%nat
  /\ 0 <= 3 < Z.of_nat (length (toUtf8 (text_of_string "Hi there")))
  /\ exists d' kept,
       saveFile 1 short_of_space a named_draft = Some (true, d')
       /\ editor_modified (window d') = false
       /\ statusBar (window d') = "Saved: notes.txt"%string
       /\ lookup (disk d') "notes.txt" = Some kept
       /\ (length kept < 8)%nat.
Proof.
  intros a.
  assert (Hn : 0 <= 3 < Z.of_nat (length (toUtf8 (text_of_string "Hi there"))))
    by (cbn; lia).
  split; [lia|]. split; [exact Hn|].
  exact (short_write_is_reported_saved 1 short_of_space a named_draft
           (le_n 1) eq_refl eq_refl Hn).
Defined.

(** X11. When [saveFile] reports failure, the window keeps its text, its
    modified flag and its status bar message; no file changed, unless
    the file opened for writing and [write] failed, in which case that
    file, already truncated, is left empty. *)
Theorem saveFile_failure
    (fuel : nat) (p : Platform) (a : Answers) (d d' : Desktop) :
  saveFile fuel p a d = Some (false, d') ->
  let file := currentFile (window d') in
  editor_text (window d') = editor_text (window d)
  /\ editor_modified (window d') = editor_modified (window d)
  /\ statusBar (window d') = statusBar (window d)
  /\ (disk d' = disk d
      \/ (writable p file = true
          /\ write p file (toUtf8 (editor_text (window d))) = -1
          /\ disk d' = store (disk d) file []
          /\ lookup (disk d') file = Some [])).
Proof.
  intros H. apply saveFile_sound in H. symmetry in H.
  pose proof (save_outcome_false p a d d' H) as F. cbv zeta in F.
  destruct F as (F1 & F2 & F3 & F4 & _).
  exact (conj F1 (conj F2 (conj F3 F4))).
Qed.

Lemma saveFile_failure_witness :
  let a := mkAnswers Cancel "" "" in
  let d' :=
    mkDesktop (window named_draft)
              (("notes.txt"%string, []) :: disk named_draft)
              [Warning "Save Failed" "Failed to write file: notes.txt"] in
  saveFile 1 failing_writes a named_draft = Some (false, d')
  /\ lookup (disk named_draft) "notes.txt" = Some (text_of_string "Hi")
  /\ editor_text (window d') = text_of_string "Hi there"
  /\ editor_modified (window d') = true.
Proof.
  intros a d'. split; [reflexivity|]. split; [reflexivity|].
  pose proof (saveFile_failure 1 failing_writes a named_draft d' eq_refl) as H.
  cbv zeta in H. destruct H as [Ht [Hm _]]. split; [exact Ht|exact Hm].
Defined.



Lemma unsaved_changes_sound (fuel : nat) (p : Platform) (a : Answers)
    (text : string) (d : Desktop) (r : bool * Desktop) :
  unsaved_changes fuel p a text d = Some r -> r = unsaved_outcome p a text d.
Proof.
  unfold unsaved_changes, unsaved_outcome.
  destruct (editor_modified (window d)); [|congruence].
  destruct (question a); [apply saveFile_sound|congruence|congruence].
Qed.


Lemma newFile_after (p : Platform) (d1 : Desktop) :
  (w <- editor_setText p (window d1) [] ;;
   Some (with_window d1
           (showMessage (setModified (setCurrentFile w "") false) "New file")))
  = Some (mkDesktop blank (disk d1) (shown d1)).
Proof. rewrite editor_setText_closed. reflexivity. Qed.

Lemma newFile_sound (fuel : nat) (p : Platform) (a : Answers)
    (d d' : Desktop) :
  newFile fuel p a d = Some d' ->
  d' = (let (proceed, d1) := unsaved_outcome p a new_question d in
        if proceed then mkDesktop blank (disk d1) (shown d1) else d1).
Proof.
  unfold newFile. fold new_question.
  destruct (unsaved_changes fuel p a new_question d) as [[proceed d1]|] eqn:E;
    [|discriminate].
  apply unsaved_changes_sound in E. rewrite <- E.
  destruct proceed; [rewrite newFile_after|]; congruence.
Qed.


Lemma openFile_after (p : Platform) (a : Answers) (d1 : Desktop) :
  (let fileName := getOpenFileName a in
   let d := show d1 (OpenFileName "Open File") in
   if isEmpty fileName then Some d
   else
     match (if readable p fileName then lookup (disk d) fileName else None) with
     | None =>
       Some (show d (Warning "Open Failed"
                       ("Cannot open file: " ++ errorString p fileName)%string))
     | Some bytes =>
       let contents := QString_fromUtf8 bytes in
       w <- editor_setText p (window d) contents ;;
       let w := setCurrentFile w fileName in
       let w := setModified w false in
       let w := showMessage w ("Opened: " ++ fileName)%string in
       Some (with_window d w)
     end)
  = Some (load p a d1).
Proof.
  unfold load. cbv zeta. destruct (isEmpty (getOpenFileName a)); [reflexivity|].
  destruct (if readable p (getOpenFileName a)
            then lookup (disk (show d1 (OpenFileName "Open File")))
                        (getOpenFileName a)
            else None) as [bytes|]; [|reflexivity].
  rewrite editor_setText_closed. reflexivity.
Qed.

Lemma openFile_sound (fuel : nat) (p : Platform) (a : Answers)
    (d d' : Desktop) :
  openFile fuel p a d = Some d' ->
  d' = (let (proceed, d1) := unsaved_outcome p a open_question d in
        if proceed then load p a d1 else d1).
Proof.
  unfold openFile. fold open_question.
  destruct (unsaved_changes fuel p a open_question d) as [[proceed d1]|] eqn:E;
    [|discriminate].
  apply unsaved_changes_sound in E. rewrite <- E.
  destruct proceed; [rewrite openFile_after|]; congruence.
Qed.


Lemma unsaved_outcome_true (p : Platform) (a : Answers) (text : string)
    (d d1 : Desktop) :
  unsaved_outcome p a text d = (true, d1) ->
  let asked := show d (Question "Unsaved Changes" text) in
  (editor_modified (window d) = false /\ d1 = d)
  \/ (editor_modified (window d) = true /\ question a = No /\ d1 = asked)
  \/ (editor_modified (window d) = true /\ question a = Yes
      /\ save_outcome p a asked = (true, d1)).
Proof.
  unfold unsaved_outcome. intros H. cbv zeta.
  destruct (editor_modified (window d)); [|left; split; congruence].
  right. destruct (question a); [right; auto|left|discriminate].
  split; [reflexivity|]. split; [reflexivity|]. congruence.
Qed.

Lemma unsaved_outcome_false (p : Platform) (a : Answers) (text : string)
    (d d1 : Desktop) :
  unsaved_outcome p a text d = (false, d1) ->
  let asked := show d (Question "Unsaved Changes" text) in
  editor_modified (window d) = true
  /\ ((question a = Cancel /\ d1 = asked)
      \/ (question a = Yes /\ save_outcome p a asked = (false, d1))).
Proof.
  unfold unsaved_outcome. intros H. cbv zeta.
  destruct (editor_modified (window d)); [|discriminate].
  split; [reflexivity|].
  destruct (question a); [right; auto|discriminate|left].
  split; [reflexivity|congruence].
Qed.

(** When the slot stops, the window still holds the unsaved text. *)
Lemma unsaved_outcome_stop (p : Platform) (a : Answers) (text : string)
    (d d1 : Desktop) :
  unsaved_outcome p a text d = (false, d1) ->
  editor_modified (window d) = true
  /\ question a <> No
  /\ editor_text (window d1) = editor_text (window d)
  /\ editor_modified (window d1) = true
  /\ statusBar (window d1) = statusBar (window d)
  /\ (currentFile (window d1) = currentFile (window d)
      \/ currentFile (window d1) = getSaveFileName a).
Proof.
  intros H. apply unsaved_outcome_false in H. cbv zeta in H.
  destruct H as [Hm [[Hq ->]|[Hq Hs]]]; split; try exact Hm;
    (split; [rewrite Hq; discriminate|]).
  - cbn [window show]. auto.
  - pose proof (save_outcome_false p a _ d1 Hs) as F. cbv zeta in F.
    cbn [window show] in F. destruct F as (F1 & F2 & F3 & _).
    split; [exact F1|]. split; [congruence|]. split; [exact F3|].
    destruct (save_outcome_cases p a
                (show d (Question "Unsaved Changes" text)))
      as [[_ E]|[[_ [_ E]]|[_ [_ E]]]]; rewrite E in Hs.
    + apply write_current_false in Hs. destruct Hs as [-> _]. left. reflexivity.
    + inversion Hs; subst. left. reflexivity.
    + apply write_current_false in Hs. destruct Hs as [-> _]. right. reflexivity.
Qed.

(** When the slot goes on although the document was modified, the user
    was asked and either declined to save or the text was saved. *)
Lemma unsaved_outcome_guard (p : Platform) (a : Answers) (text : string)
    (d d1 : Desktop) :
  unsaved_outcome p a text d = (true, d1) ->
  editor_modified (window d) = true ->
  let bytes := toUtf8 (editor_text (window d)) in
  In (Question "Unsaved Changes" text) (shown d1)
  /\ (question a = No
      \/ (question a = Yes
          /\ exists file,
               isEmpty file = false
               /\ write p file bytes <> -1
               /\ lookup (disk d1) file
                  = Some (firstn (Z.to_nat (write p file bytes)) bytes))).
Proof.
  intros H Hm bytes. apply unsaved_outcome_true in H. cbv zeta in H.
  destruct H as [[Hm' _]|[[_ [Hq ->]]|[_ [Hq Hs]]]]; [congruence| |].
  - split; [|left; exact Hq]. cbn [shown show]. apply in_or_app.
    right. apply in_eq.
  - pose proof (save_outcome_true p a _ d1 Hs) as F. cbv zeta in F.
    cbn [window shown show] in F.
    destruct F as (F1 & _ & _ & _ & F5 & F6 & _ & F8). split.
    + destruct F8 as [-> | ->].
      * apply in_or_app. right. apply in_eq.
      * apply in_or_app. left. apply in_or_app. right. apply in_eq.
    + right. split; [exact Hq|]. exists (currentFile (window d1)). auto.
Qed.

Lemma load_cases (p : Platform) (a : Answers) (d1 : Desktop) :
  let name := getOpenFileName a in
  (exists bytes,
     isEmpty name = false /\ readable p name = true
     /\ lookup (disk d1) name = Some bytes
     /\ load p a d1
        = mkDesktop (mkEditor (QString_fromUtf8 bytes) false name
                              ("Opened: " ++ name)%string)
                    (disk d1) (shown d1 ++ [OpenFileName "Open File"]))
  \/ (window (load p a d1) = window d1
      /\ disk (load p a d1) = disk d1
      /\ exists new,
           shown (load p a d1) = shown d1 ++ OpenFileName "Open File" :: new
           /\ (count_shown is_warning new <= 1)%nat
           /\ count_shown is_question new = 0%nat
           /\ count_shown is_open_dialog new = 0%nat
           /\ count_shown is_save_dialog new = 0%nat).
Proof.
  intros name. unfold load. fold name. cbv zeta. cbn [disk show].
  destruct (isEmpty name) eqn:En.
  { right. cbn [window disk shown show]. repeat (split; [reflexivity|]).
    exists []. cbn. repeat split; lia. }
  destruct (readable p name) eqn:Er.
  - destruct (lookup (disk d1) name) as [bytes|] eqn:El.
    + left. exists bytes. auto.
    + right. cbn [window disk shown show]. repeat (split; [reflexivity|]).
      eexists. split; [rewrite <- app_assoc; reflexivity|].
      cbn. repeat split; lia.
  - right. cbn [window disk shown show]. repeat (split; [reflexivity|]).
    eexists. split; [rewrite <- app_assoc; reflexivity|].
    cbn. repeat split; lia.
Qed.

(** X8. A window just constructed is empty, unmodified and unnamed, and
    its status bar shows the counts of the empty text: the "Ready" that
    [setupStatusBar] writes first is replaced at once. *)
Theorem initial_status_bar (icu : Library) :
  contract (wordInstance icu (getDefault icu)) [] = true ->
  contract (characterInstance icu (getDefault icu)) [] = true ->
  CodeEditor_new icu
  = Some (mkEditor [] false "" "Words: 0 | Characters: 0").
Proof.
  intros Hw Hc. unfold CodeEditor_new, setupStatusBar.
  rewrite updateStats_closed. cbn [editor_text showMessage].
  change (utext_of []) with (@nil Z).
  rewrite (words_by_empty _ Hw), (graphemes_by_empty _ Hc). reflexivity.
Qed.

Lemma initial_status_bar_witness :
  contract (wordInstance UAX29.library (getDefault UAX29.library)) [] = true
  /\ contract (characterInstance UAX29.library (getDefault UAX29.library)) []
     = true
  /\ option_map statusBar (CodeEditor_new UAX29.library)
     = Some "Words: 0 | Characters: 0"%string.
Proof.
  split; [reflexivity|]. split; [reflexivity|].
  rewrite (initial_status_bar UAX29.library eq_refl eq_refl). reflexivity.
Defined.



(** X14. On an unmodified document [newFile] asks nothing and touches no
    file: it leaves the empty, unnamed, unmodified document with "New
    file" in the status bar, also when clearing the text made the
    statistics run. *)
Theorem newFile_unmodified
    (fuel : nat) (p : Platform) (a : Answers) (d : Desktop) :
  editor_modified (window d) = false ->
  newFile fuel p a d
  = Some (mkDesktop (mkEditor [] false "" "New file") (disk d) (shown d)).
Proof.
  intros Hm. unfold newFile, unsaved_changes. rewrite Hm.
  apply newFile_after.
Qed.

Lemma newFile_unmodified_witness :
  let d := mkDesktop (mkEditor (text_of_string "Hi") false "notes.txt"
                               "Saved: notes.txt")
                     [("notes.txt"%string, text_of_string "Hi")] [] in
  editor_modified (window d) = false
  /\ newFile 0 obliging (mkAnswers Yes "" "") d
     = Some (mkDesktop (mkEditor [] false "" "New file")
                       [("notes.txt"%string, text_of_string "Hi")] []).
Proof.
  intros d. split; [reflexivity|].
  exact (newFile_unmodified 0 obliging (mkAnswers Yes "" "") d eq_refl).
Defined.

(** X15. [newFile] ends in one of two ways: with the empty, unnamed,
    unmodified document, or, the user having cancelled or the save
    having failed, with the text, the modified flag and the status bar
    as they were. *)
Theorem newFile_outcome
    (fuel : nat) (p : Platform) (a : Answers) (d d' : Desktop) :
  newFile fuel p a d = Some d' ->
  window d' = mkEditor [] false "" "New file"
  \/ (editor_modified (window d) = true
      /\ question a <> No
      /\ editor_text (window d') = editor_text (window d)
      /\ editor_modified (window d') = true
      /\ statusBar (window d') = statusBar (window d)).
Proof.
  intros H. apply newFile_sound in H.
  destruct (unsaved_outcome p a new_question d) as [[|] d1] eqn:E; subst d'.
  - left. reflexivity.
  - right. apply unsaved_outcome_stop in E.
    destruct E as (E1 & E2 & E3 & E4 & E5 & _). auto.
Qed.

Lemma newFile_outcome_witness :
  let d' := mkDesktop (window draft) []
                      [Question "Unsaved Changes" new_question] in
  newFile 3 obliging (mkAnswers Cancel "" "") draft = Some d'
  /\ editor_text (window d') = text_of_string "Hi there"
  /\ editor_modified (window d') = true.
Proof.
  intros d'. split; [reflexivity|].
  destruct (newFile_outcome 3 obliging (mkAnswers Cancel "" "") draft d'
              eq_refl) as [H|(_ & _ & Ht & Hm & _)];
    [discriminate H|]. split; [exact Ht|exact Hm].
Defined.

(** X16. [newFile] does not drop unsaved text unasked: when the document
    was modified and its text is gone afterwards, the question was shown
    and the answer was No, or it was Yes and [saveFile] succeeded: a
    file holds the bytes of the text that [write] accepted. *)
Theorem newFile_keeps_unsaved_text
    (fuel : nat) (p : Platform) (a : Answers) (d d' : Desktop) :
  newFile fuel p a d = Some d' ->
  editor_modified (window d) = true ->
  editor_text (window d') <> editor_text (window d) ->
  let bytes := toUtf8 (editor_text (window d)) in
  In (Question "Unsaved Changes" new_question) (shown d')
  /\ (question a = No
      \/ (question a = Yes
          /\ exists file,
               isEmpty file = false
               /\ write p file bytes <> -1
               /\ lookup (disk d') file
                  = Some (firstn (Z.to_nat (write p file bytes)) bytes))).
Proof.
  intros H Hm Hgone. apply newFile_sound in H.
  destruct (unsaved_outcome p a new_question d) as [[|] d1] eqn:E; subst d'.
  - exact (unsaved_outcome_guard p a new_question d d1 E Hm).
  - apply unsaved_outcome_stop in E. destruct E as (_ & _ & E3 & _).
    contradiction.
Qed.

Lemma newFile_keeps_unsaved_text_witness :
  let a := mkAnswers Yes "" "notes.txt" in
  exists d',
    newFile 3 obliging a draft = Some d'
    /\ editor_modified (window draft) = true
    /\ editor_text (window d') = []
    /\ lookup (disk d') "notes.txt" = Some (text_of_string "Hi there")
    /\ In (Question "Unsaved Changes" new_question) (shown d').
Proof.
  intros a. eexists. split; [reflexivity|]. split; [reflexivity|].
  split; [reflexivity|]. split; [reflexivity|].
  refine (proj1 (newFile_keeps_unsaved_text 3 obliging a draft _
                   eq_refl eq_refl _)).
  discriminate.
Defined.

Lemma unsaved_outcome_text (p : Platform) (a : Answers) (text : string)
    (d d1 : Desktop) (proceed : bool) :
  unsaved_outcome p a text d = (proceed, d1) ->
  editor_text (window d1) = editor_text (window d).
Proof.
  intros H. destruct proceed.
  - apply unsaved_outcome_true in H. cbv zeta in H.
    destruct H as [[_ ->]|[[_ [_ ->]]|[_ [_ Hs]]]]; try reflexivity.
    pose proof (save_outcome_true p a _ d1 Hs) as F. cbv zeta in F.
    destruct F as (_ & _ & -> & _). reflexivity.
  - apply unsaved_outcome_stop in H. destruct H as (_ & _ & H & _). exact H.
Qed.

Lemma unsaved_outcome_disk (p : Platform) (a : Answers) (text : string)
    (d : Desktop) :
  editor_modified (window d) = false \/ question a <> Yes ->
  disk (snd (unsaved_outcome p a text d)) = disk d.
Proof.
  intros H. unfold unsaved_outcome.
  destruct (editor_modified (window d)); [|reflexivity].
  destruct H as [H|H]; [discriminate|].
  destruct (question a); [contradiction|reflexivity|reflexivity].
Qed.

Lemma count_shown_app (kind : Dialog -> bool) (l m : list Dialog) :
  count_shown kind (l ++ m) = (count_shown kind l + count_shown kind m)%nat.
Proof. unfold count_shown. rewrite filter_app, length_app. reflexivity. Qed.

(** What the block on unsaved changes shows: the question at most once,
    the save dialog at most once, a warning only if it then stops. *)
Lemma unsaved_outcome_shown (p : Platform) (a : Answers) (text : string)
    (d d1 : Desktop) (proceed : bool) :
  unsaved_outcome p a text d = (proceed, d1) ->
  exists new,
    shown d1 = shown d ++ new
    /\ (count_shown is_question new <= 1)%nat
    /\ (count_shown is_save_dialog new <= 1)%nat
    /\ count_shown is_open_dialog new = 0%nat
    /\ (count_shown is_warning new <= (if proceed then 0 else 1))%nat.
Proof.
  intros H. destruct proceed.
  - apply unsaved_outcome_true in H. cbv zeta in H.
    destruct H as [[_ ->]|[[_ [_ ->]]|[_ [_ Hs]]]].
    + exists []. rewrite app_nil_r. cbn. repeat split; lia.
    + eexists. split; [reflexivity|]. cbn. repeat split; lia.
    + pose proof (save_outcome_true p a _ d1 Hs) as F. cbv zeta in F.
      destruct F as (_ & _ & _ & _ & _ & _ & _ & [F|F]);
        cbn [shown show] in F; eexists;
        (split; [rewrite F, <- ?app_assoc; reflexivity|]);
        cbn; repeat split; lia.
  - apply unsaved_outcome_false in H. cbv zeta in H.
    destruct H as [_ [[_ ->]|[_ Hs]]].
    + eexists. split; [reflexivity|]. cbn. repeat split; lia.
    + pose proof (save_outcome_false p a _ d1 Hs) as F. cbv zeta in F.
      destruct F as (_ & _ & _ & _ & new & F & Fw & Fs & Fq & Fo).
      cbn [shown show] in F.
      exists (Question "Unsaved Changes" text :: new).
      split; [rewrite F, <- app_assoc; reflexivity|].
      change (Question "Unsaved Changes" text :: new)
        with ([Question "Unsaved Changes" text] ++ new).
      rewrite !count_shown_app, Fq, Fo. cbn. repeat split; lia.
Qed.

Lemma load_keeps (p : Platform) (a : Answers) (d1 : Desktop) :
  disk (load p a d1) = disk d1
  /\ exists new,
       shown (load p a d1) = shown d1 ++ new
       /\ (count_shown is_warning new <= 1)%nat
       /\ count_shown is_question new = 0%nat
       /\ count_shown is_open_dialog new = 1%nat
       /\ count_shown is_save_dialog new = 0%nat.
Proof.
  destruct (load_cases p a d1) as [[bytes (_ & _ & _ & E)]|(_ & Hd & new & E & Hc)].
  - rewrite E. cbn [disk shown]. split; [reflexivity|].
    eexists. split; [reflexivity|]. cbn. repeat split; lia.
  - split; [exact Hd|]. eexists. split; [exact E|].
    change (OpenFileName "Open File" :: new)
      with ([OpenFileName "Open File"] ++ new).
    rewrite !count_shown_app. cbn. destruct Hc as (H1 & H2 & H3 & H4).
    rewrite H2, H3, H4. repeat split; lia.
Qed.



(** X18. [openFile] does not drop unsaved text unasked: when the
    document was modified and another text is in the editor afterwards,
    the question was shown and the answer was No, or it was Yes and
    [saveFile] succeeded: a file holds the bytes of the text that [write]
    accepted. *)
Theorem openFile_keeps_unsaved_text
    (fuel : nat) (p : Platform) (a : Answers) (d d' : Desktop) :
  openFile fuel p a d = Some d' ->
  editor_modified (window d) = true ->
  editor_text (window d') <> editor_text (window d) ->
  let bytes := toUtf8 (editor_text (window d)) in
  In (Question "Unsaved Changes" open_question) (shown d')
  /\ (question a = No
      \/ (question a = Yes
          /\ exists file,
               isEmpty file = false
               /\ write p file bytes <> -1
               /\ lookup (disk d') file
                  = Some (firstn (Z.to_nat (write p file bytes)) bytes))).
Proof.
  intros H Hm Hgone bytes. apply openFile_sound in H.
  destruct (unsaved_outcome p a open_question d) as [proceed d1] eqn:E.
  pose proof (unsaved_outcome_text p a _ d d1 proceed E) as Ht.
  destruct proceed; subst d'; [|congruence].
  pose proof (unsaved_outcome_guard p a _ d d1 E Hm) as [Hq Hs].
  destruct (load_keeps p a d1) as [Hd [new [Hn _]]].
  rewrite Hd, Hn. split; [|exact Hs]. apply in_or_app. left. exact Hq.
Qed.

Lemma openFile_keeps_unsaved_text_witness :
  let a := mkAnswers Yes "other.txt" "" in
  exists d',
    openFile 3 obliging a named_draft = Some d'
    /\ editor_modified (window named_draft) = true
    /\ editor_text (window d') = text_of_string "Bye"
    /\ In (Question "Unsaved Changes" open_question) (shown d')
    /\ lookup (disk d') "notes.txt" = Some (text_of_string "Hi there").
Proof.
  intros a. eexists. split; [reflexivity|]. split; [reflexivity|].
  split; [reflexivity|]. split; [|reflexivity].
  refine (proj1 (openFile_keeps_unsaved_text 3 obliging a named_draft _
                   eq_refl eq_refl _)).
  discriminate.
Defined.

(** X19. [newFile] and [openFile] write no file unless the document was
    modified and the user answered Yes to the question. *)
Theorem files_written_only_on_yes
    (fuel : nat) (p : Platform) (a : Answers) (d : Desktop) :
  editor_modified (window d) = false \/ question a <> Yes ->
  (forall d', newFile fuel p a d = Some d' -> disk d' = disk d)
  /\ (forall d', openFile fuel p a d = Some d' -> disk d' = disk d).
Proof.
  intros Hno. split; intros d' H.
  - apply newFile_sound in H.
    pose proof (unsaved_outcome_disk p a new_question d Hno) as Hd.
    destruct (unsaved_outcome p a new_question d) as [[|] d1]; subst d';
      exact Hd.
  - apply openFile_sound in H.
    pose proof (unsaved_outcome_disk p a open_question d Hno) as Hd.
    destruct (unsaved_outcome p a open_question d) as [[|] d1]; subst d';
      cbn [snd] in Hd; [|exact Hd].
    rewrite (proj1 (load_keeps p a d1)). exact Hd.
Qed.

Lemma files_written_only_on_yes_witness :
  let a := mkAnswers No "other.txt" "copy.txt" in
  question a <> Yes
  /\ (exists d', newFile 3 obliging a named_draft = Some d'
                 /\ disk d' = disk named_draft)
  /\ (exists d', openFile 3 obliging a named_draft = Some d'
                 /\ disk d' = disk named_draft).
Proof.
  intros a. assert (Hq : question a <> Yes) by discriminate.
  split; [exact Hq|].
  destruct (files_written_only_on_yes 3 obliging a named_draft
              (or_intror Hq)) as [Hn Ho].
  split; eexists; (split; [reflexivity|]).
  - apply Hn. reflexivity.
  - apply Ho. reflexivity.
Defined.

(** X21. One call of [newFile] shows the question at most once, the save
    dialog at most once, at most one warning, and never the open dialog. *)
Theorem newFile_dialogs
    (fuel : nat) (p : Platform) (a : Answers) (d d' : Desktop) :
  newFile fuel p a d = Some d' ->
  exists new,
    shown d' = shown d ++ new
    /\ (count_shown is_question new <= 1)%nat
    /\ (count_shown is_save_dialog new <= 1)%nat
    /\ (count_shown is_warning new <= 1)%nat
    /\ count_shown is_open_dialog new = 0%nat.
Proof.
  intros H. apply newFile_sound in H.
  destruct (unsaved_outcome p a new_question d) as [proceed d1] eqn:E.
  destruct (unsaved_outcome_shown p a _ d d1 proceed E)
    as (new & Hn & Hq & Hs & Ho & Hw).
  exists new. destruct proceed; subst d'; cbn [shown];
    (split; [exact Hn|]); repeat split; lia.
Qed.

Lemma newFile_dialogs_witness :
  let a := mkAnswers Yes "" "" in
  exists d' new,
    newFile 3 obliging a draft = Some d'
    /\ shown d' = shown draft ++ new
    /\ new = [Question "Unsaved Changes" new_question;
              SaveFileName "Save File As"]
    /\ (count_shown is_question new <= 1)%nat.
Proof.
  intros a. eexists. eexists. split; [reflexivity|].
  split; [reflexivity|]. split; [reflexivity|].
  destruct (newFile_dialogs 3 obliging a draft _ eq_refl)
    as (new & Hn & Hq & _).
  cbn [shown draft app] in Hn. subst new. exact Hq.
Defined.

(** X22. One call of [openFile] shows each of the question, the save
    dialog and the open dialog at most once, and at most one warning. *)
Theorem openFile_dialogs
    (fuel : nat) (p : Platform) (a : Answers) (d d' : Desktop) :
  openFile fuel p a d = Some d' ->
  exists new,
    shown d' = shown d ++ new
    /\ (count_shown is_question new <= 1)%nat
    /\ (count_shown is_save_dialog new <= 1)%nat
    /\ (count_shown is_open_dialog new <= 1)%nat
    /\ (count_shown is_warning new <= 1)%nat.
Proof.
  intros H. apply openFile_sound in H.
  destruct (unsaved_outcome p a open_question d) as [proceed d1] eqn:E.
  destruct (unsaved_outcome_shown p a _ d d1 proceed E)
    as (new & Hn & Hq & Hs & Ho & Hw).
  destruct proceed; subst d'.
  - destruct (load_keeps p a d1) as [_ (more & Hm & Mw & Mq & Mo & Ms)].
    exists (new ++ more). split; [rewrite Hm, Hn, app_assoc; reflexivity|].
    rewrite !count_shown_app. repeat split; lia.
  - exists new. split; [exact Hn|]. repeat split; lia.
Qed.

Lemma openFile_dialogs_witness :
  let a := mkAnswers Yes "missing.txt" "notes.txt" in
  exists d' new,
    openFile 3 obliging a draft = Some d'
    /\ shown d' = shown draft ++ new
    /\ new = [Question "Unsaved Changes" open_question;
              SaveFileName "Save File As"; OpenFileName "Open File";
              Warning "Open Failed" "Cannot open file: Permission denied"]
    /\ (count_shown is_warning new <= 1)%nat.
Proof.
  intros a. eexists. eexists. split; [reflexivity|].
  split; [reflexivity|]. split; [reflexivity|].
  destruct (openFile_dialogs 3 obliging a draft _ eq_refl)
    as (new & Hn & _ & _ & _ & Hw).
  cbn [shown draft app] in Hn. subst new. exact Hw.
Defined.

(** X23. After a save that succeeded the document counts as unmodified:
    [newFile] then asks nothing, writes nothing and clears the editor,
    whatever the platform and the user would answer by then. *)
Theorem newFile_after_save
    (fuel fuel' : nat) (p p' : Platform) (a a' : Answers) (d d1 : Desktop) :
  saveFile fuel p a d = Some (true, d1) ->
  newFile fuel' p' a' d1
  = Some (mkDesktop (mkEditor [] false "" "New file") (disk d1) (shown d1)).
Proof.
  intros H. apply saveFile_sound in H. symmetry in H.
  pose proof (save_outcome_true p a d d1 H) as F. cbv zeta in F.
  destruct F as (_ & _ & Hw & _).
  assert (Hm : editor_modified (window d1) = false)
    by (rewrite Hw; reflexivity).
  unfold newFile, unsaved_changes. rewrite Hm. apply newFile_after.
Qed.

Lemma newFile_after_save_witness :
  let a := mkAnswers Cancel "" "notes.txt" in
  exists d1 d2,
    saveFile 3 obliging a draft = Some (true, d1)
    /\ newFile 0 failing_writes a d1 = Some d2
    /\ window d2 = mkEditor [] false "" "New file"
    /\ shown d2 = [SaveFileName "Save File As"]
    /\ lookup (disk d2) "notes.txt" = Some (text_of_string "Hi there").
Proof.
  intros a. eexists. eexists. split; [reflexivity|].
  split; [exact (newFile_after_save 3 0 obliging failing_writes a a draft _
                   eq_refl)|].
  split; [reflexivity|]. split; reflexivity.
Defined.

(** ** Saving and opening again *)

Lemma qdecode1 (b : Z) (r : list Z) :
  b < 0x80 -> qstring_decode (b :: r) = b :: qstring_decode r.
Proof.
  intros H. cbn [qstring_decode]. rewrite (proj2 (Z.ltb_lt b 0x80)) by lia.
  reflexivity.
Qed.

Lemma qdecode2 (b0 b1 : Z) (r : list Z) :
  0xC2 <= b0 <= 0xDF -> 0x80 <= b1 <= 0xBF ->
  qstring_decode (b0 :: b1 :: r) = cp2 b0 b1 :: qstring_decode r.
Proof.
  intros H0 H1. cbn [qstring_decode].
  rewrite (proj2 (Z.ltb_ge b0 0x80)) by lia.
  rewrite (in_range_true 0xC2 0xDF b0) by lia.
  unfold is_trail. rewrite (in_range_true 0x80 0xBF b1) by lia.
  reflexivity.
Qed.

Lemma qdecode3 (b0 b1 b2 : Z) (r : list Z) :
  0xE0 <= b0 <= 0xEF -> second_ok b0 b1 = true -> 0x80 <= b2 <= 0xBF ->
  qstring_decode (b0 :: b1 :: b2 :: r) = cp3 b0 b1 b2 :: qstring_decode r.
Proof.
  intros H0 H1 H2. cbn [qstring_decode].
  rewrite (proj2 (Z.ltb_ge b0 0x80)) by lia.
  rewrite (in_range_false 0xC2 0xDF b0) by lia.
  rewrite (in_range_true 0xE0 0xEF b0) by lia.
  rewrite H1. unfold is_trail. rewrite (in_range_true 0x80 0xBF b2) by lia.
  reflexivity.
Qed.

Lemma qdecode4 (b0 b1 b2 b3 : Z) (r : list Z) :
  0xF0 <= b0 <= 0xF4 -> second_ok b0 b1 = true ->
  0x80 <= b2 <= 0xBF -> 0x80 <= b3 <= 0xBF ->
  qstring_decode (b0 :: b1 :: b2 :: b3 :: r)
  = cp4 b0 b1 b2 b3 :: qstring_decode r.
Proof.
  intros H0 H1 H2 H3. cbn [qstring_decode].
  rewrite (proj2 (Z.ltb_ge b0 0x80)) by lia.
  rewrite (in_range_false 0xC2 0xDF b0) by lia.
  rewrite (in_range_false 0xE0 0xEF b0) by lia.
  rewrite (in_range_true 0xF0 0xF4 b0) by lia.
  rewrite H1. unfold is_trail.
  rewrite (in_range_true 0x80 0xBF b2), (in_range_true 0x80 0xBF b3) by lia.
  reflexivity.
Qed.

Lemma qstring_roundtrip (c : Z) (rest : list Z) :
  is_scalar c = true ->
  qstring_decode (utf8_bytes c ++ rest) = c :: qstring_decode rest.
Proof.
  intros Hc. destruct (scalar_bounds c Hc) as [Hr Hs].
  rewrite (utf8_bytes_arith c Hr).
  destruct (Z.ltb_spec c 0x80).
  { cbn [app]. apply qdecode1. assumption. }
  destruct (Z.ltb_spec c 0x800).
  { cbn [app]. rewrite qdecode2 by arith. f_equal. rewrite cp2_arith. arith. }
  destruct (Z.ltb_spec c 0x10000).
  { cbn [app].
    rewrite qdecode3 by (try apply second_ok_3; try assumption; arith).
    f_equal. rewrite cp3_arith. arith. }
  cbn [app].
  rewrite qdecode4 by (try apply second_ok_4; arith).
  f_equal. rewrite cp4_arith. arith.
Qed.

Lemma qstring_decode_toUtf8 (text : QString) :
  qstring_decode (toUtf8 text) = map sanitize text.
Proof.
  unfold toUtf8. induction text as [|c text IH]; [reflexivity|].
  cbn [flat_map map]. fold (sanitize c).
  rewrite qstring_roundtrip by apply sanitize_scalar. rewrite IH. reflexivity.
Qed.

Lemma skip_bom_other (b0 : Z) (r : list Z) :
  b0 <> 0xEF -> skip_bom (b0 :: r) = b0 :: r.
Proof.
  intros H. destruct r as [|b1 [|b2 r]]; try reflexivity.
  cbn [skip_bom]. rewrite (proj2 (Z.eqb_neq b0 0xEF) H). reflexivity.
Qed.

Lemma skip_bom_none (b0 b1 b2 : Z) (r : list Z) :
  ~ (b0 = 0xEF /\ b1 = 0xBB /\ b2 = 0xBF) ->
  skip_bom (b0 :: b1 :: b2 :: r) = b0 :: b1 :: b2 :: r.
Proof.
  intros H. cbn [skip_bom].
  destruct (Z.eqb_spec b0 0xEF); [|reflexivity].
  destruct (Z.eqb_spec b1 0xBB); [|reflexivity].
  destruct (Z.eqb_spec b2 0xBF); [|reflexivity].
  destruct H. auto.
Qed.

(** Only U+FEFF is encoded as a byte order mark. *)
Lemma skip_bom_toUtf8 (text : QString) :
  hd 0 text <> 0xFEFF -> skip_bom (toUtf8 text) = toUtf8 text.
Proof.
  destruct text as [|c text]; [reflexivity|]. cbn [hd]. intros Hc.
  unfold toUtf8. cbn [flat_map]. fold (sanitize c).
  assert (Hs : sanitize c <> 0xFEFF).
  { unfold sanitize. destruct (is_scalar c); [exact Hc|discriminate]. }
  destruct (scalar_bounds _ (sanitize_scalar c)) as [Hr _].
  rewrite (utf8_bytes_arith _ Hr).
  destruct (Z.ltb_spec (sanitize c) 0x80).
  { cbn [app]. apply skip_bom_other. lia. }
  destruct (Z.ltb_spec (sanitize c) 0x800).
  { cbn [app]. apply skip_bom_other. arith. }
  destruct (Z.ltb_spec (sanitize c) 0x10000).
  { cbn [app]. apply skip_bom_none. arith. }
  cbn [app]. apply skip_bom_other. arith.
Qed.

(** What [QString::fromUtf8] makes of what [toUtf8] wrote. *)
Lemma fromUtf8_toUtf8 (text : QString) :
  Forall (fun c => is_scalar c = true) text ->
  hd 0 text <> 0xFEFF ->
  QString_fromUtf8 (toUtf8 text) = text.
Proof.
  intros Hv Hb. unfold QString_fromUtf8.
  rewrite (skip_bom_toUtf8 text Hb), qstring_decode_toUtf8.
  apply sanitize_valid. exact Hv.
Qed.

(** X20. Saving and opening again gives the text back: when the text is
    made of scalar values, holds no U+0000 and does not begin with
    U+FEFF, and the file takes all the bytes and can then be read,
    [saveFile] followed by [openFile] of the same file leaves the same
    text in the editor, the document unmodified and named after the
    file. *)
Theorem save_then_open_restores_text
    (fuel fuel' : nat) (p p' : Platform) (a a' : Answers) (d : Desktop) :
  let text := editor_text (window d) in
  let file := currentFile (window d) in
  (1 <= fuel)%nat ->
  isEmpty file = false ->
  Forall (fun c => is_scalar c = true) text ->
  ~ In 0 text ->
  hd 0 text <> 0xFEFF ->
  writable p file = true ->
  write p file (toUtf8 text) = Z.of_nat (length (toUtf8 text)) ->
  readable p' file = true ->
  getOpenFileName a' = file ->
  exists d1 d2,
    saveFile fuel p a d = Some (true, d1)
    /\ openFile fuel' p' a' d1 = Some d2
    /\ window d2 = mkEditor text false file ("Opened: " ++ file)%string
    /\ disk d2 = disk d1.
Proof.
  intros text file Hfuel Hc Hv _ Hb Hw Hall Hr Hname.
  destruct fuel as [|fuel]; [lia|]. rewrite saveFile_named by exact Hc.
  pose proof (write_current_cases p d) as C. cbv zeta in C.
  fold file in C. fold text in C.
  destruct C as [[Hw' _]|[[_ [Hn' _]]|[_ [_ E]]]]; [congruence|lia|].
  rewrite E, Hall, Nat2Z.id, firstn_all.
  eexists. eexists. split; [reflexivity|].
  unfold openFile, unsaved_changes. cbn [window editor_modified].
  rewrite openFile_after. unfold load. rewrite Hname, Hc, Hr.
  cbn [disk show]. rewrite lookup_store.
  rewrite (fromUtf8_toUtf8 text Hv Hb). split; [reflexivity|].
  split; reflexivity.
Qed.

Lemma save_then_open_restores_text_witness :
  let a := mkAnswers Cancel "notes.txt" "" in
  let d := mkDesktop (mkEditor (cafe ++ [0x20; 0x1F600]) true "notes.txt" "")
                     [] [] in
  Forall (fun c => is_scalar c = true) (editor_text (window d))
  /\ ~ In 0 (editor_text (window d))
  /\ hd 0 (editor_text (window d)) <> 0xFEFF
  /\ exists d1 d2,
       saveFile 1 obliging a d = Some (true, d1)
       /\ openFile 0 obliging a d1 = Some d2
       /\ lookup (disk d1) "notes.txt"
          = Some [0x63; 0x61; 0x66; 0x65; 0xCC; 0x81; 0x20;
                  0xF0; 0x9F; 0x98; 0x80]
       /\ window d2
          = mkEditor (cafe ++ [0x20; 0x1F600]) false "notes.txt"
                     "Opened: notes.txt".
Proof.
  intros a d.
  assert (Hv : Forall (fun c => is_scalar c = true) (editor_text (window d)))
    by (repeat constructor).
  assert (Hz : ~ In 0 (editor_text (window d))).
  { cbn. intros H. repeat (destruct H as [H|H]; [discriminate H|]). exact H. }
  assert (Hb : hd 0 (editor_text (window d)) <> 0xFEFF) by discriminate.
  split; [exact Hv|]. split; [exact Hz|]. split; [exact Hb|].
  destruct (save_then_open_restores_text 1 0 obliging obliging a a d
              (le_n 1) eq_refl Hv Hz Hb eq_refl eq_refl eq_refl eq_refl)
    as (d1 & d2 & Hs & Ho & Hwin & _).
  exists d1, d2. split; [exact Hs|]. split; [exact Ho|].
  split; [|exact Hwin].
  injection Hs as <-. reflexivity.
Defined.

(** ** The message and repeated saves *)

Lemma string_of_uint_spaceless (d : Decimal.uint) :
  spaceless (NilEmpty.string_of_uint d) = true.
Proof. induction d; cbn [NilEmpty.string_of_uint spaceless]; auto. Qed.

Lemma nilzero_spaceless (d : Decimal.uint) :
  spaceless (NilZero.string_of_uint d) = true.
Proof.
  unfold NilZero.string_of_uint.
  destruct d; try reflexivity;
    match goal with
    | |- spaceless (NilEmpty.string_of_uint ?x) = true =>
      apply (string_of_uint_spaceless x)
    end.
Qed.

Lemma decimal_spaceless (n : Z) : spaceless (decimal n) = true.
Proof.
  unfold decimal, NilZero.string_of_int.
  destruct (Z.to_int n) as [d|d]; [apply nilzero_spaceless|].
  change (spaceless (String "-" (NilZero.string_of_uint d)))
    with (spaceless (NilZero.string_of_uint d)).
  apply nilzero_spaceless.
Qed.

Lemma to_int_not_nil (n : Z) :
  Z.to_int n <> Decimal.Pos Decimal.Nil /\ Z.to_int n <> Decimal.Neg Decimal.Nil.
Proof.
  destruct n as [|q|q]; cbn [Z.to_int]; split; try discriminate;
    intros H; injection H as H;
    exact (DecimalPos.Unsigned.to_uint_nonnil q H).
Qed.

Lemma decimal_inj (n n' : Z) : decimal n = decimal n' -> n = n'.
Proof.
  unfold decimal. intros H. apply DecimalZ.to_int_inj.
  destruct (to_int_not_nil n) as [Hp Hn].
  destruct (to_int_not_nil n') as [Hp' Hn'].
  pose proof (NilZero.isi _ Hp Hn) as E. rewrite H in E.
  rewrite (NilZero.isi _ Hp' Hn') in E. congruence.
Qed.

Lemma split_at_space (s1 : string) :
  forall s2 t1 t2,
    spaceless s1 = true -> spaceless s2 = true ->
    (s1 ++ String " " t1 = s2 ++ String " " t2)%string ->
    s1 = s2 /\ t1 = t2.
Proof.
  induction s1 as [|c s1 IH]; intros [|c2 s2] t1 t2 H1 H2 H;
    cbn [String.append spaceless] in *.
  - injection H as H. auto.
  - injection H as Hc _. subst c2. discriminate H2.
  - injection H as Hc _. subst c. discriminate H1.
  - injection H as Hc H. subst c2.
    apply andb_true_iff in H1, H2.
    destruct (IH s2 t1 t2 (proj2 H1) (proj2 H2) H) as [-> ->]. auto.
Qed.

(** X24. The message in the status bar determines both counts: two
    different pairs of counts are never displayed alike. *)
Theorem message_determines_counts (wordCount graphemes wordCount' graphemes' : Z) :
  message wordCount graphemes = message wordCount' graphemes' ->
  wordCount = wordCount' /\ graphemes = graphemes'.
Proof.
  unfold message. intros H. cbn [String.append] in H.
  repeat (injection H as H).
  apply (split_at_space _ _ _ _ (decimal_spaceless _) (decimal_spaceless _))
    in H.
  destruct H as [Hw H]. cbn [String.append] in H. repeat (injection H as H).
  split; apply decimal_inj; assumption.
Qed.

Lemma message_determines_counts_witness :
  message 2 13 = "Words: 2 | Characters: 13"%string
  /\ message 21 3 = "Words: 21 | Characters: 3"%string
  /\ (2 = 2 /\ 13 = 13).
Proof.
  split; [reflexivity|]. split; [reflexivity|].
  exact (message_determines_counts 2 13 2 13 eq_refl).
Defined.

(** X25. Saving again right after a save that succeeded, when the file
    can again be opened and [write] accepts as many bytes as before,
    asks nothing and writes the same bytes to the same file: window,
    dialogs shown and the contents of every file are as after the first
    save. *)
Theorem saveFile_twice
    (fuel fuel' : nat) (p p' : Platform) (a a' : Answers) (d d1 : Desktop) :
  let file := currentFile (window d1) in
  let bytes := toUtf8 (editor_text (window d)) in
  saveFile fuel p a d = Some (true, d1) ->
  (1 <= fuel')%nat ->
  writable p' file = true ->
  write p' file bytes = write p file bytes ->
  exists d2,
    saveFile fuel' p' a' d1 = Some (true, d2)
    /\ window d2 = window d1
    /\ shown d2 = shown d1
    /\ forall name, lookup (disk d2) name = lookup (disk d1) name.
Proof.
  intros file bytes H Hfuel Hw' Hsame. subst file bytes.
  apply saveFile_sound in H. symmetry in H.
  pose proof (save_outcome_true p a d d1 H) as F. cbv zeta in F.
  destruct F as (Hc & _ & Hwin & Hw & Hn & Hl & _).
  destruct fuel' as [|fuel']; [lia|]. rewrite saveFile_named by exact Hc.
  pose proof (write_current_cases p' d1) as C. cbv zeta in C.
  assert (Ht : editor_text (window d1) = editor_text (window d))
    by (rewrite Hwin; reflexivity).
  rewrite Ht, Hsame in C.
  destruct C as [[Hf _]|[[_ [Hn' _]]|[_ [_ E]]]]; [congruence|congruence|].
  rewrite E. eexists. split; [reflexivity|]. cbn [window disk shown].
  split; [rewrite Hwin; reflexivity|]. split; [reflexivity|].
  intros name. destruct (string_dec name (currentFile (window d1))) as [->|Hne].
  - rewrite lookup_store, Hl. reflexivity.
  - apply lookup_store_other. exact Hne.
Qed.

Lemma saveFile_twice_witness :
  let a := mkAnswers Cancel "" "notes.txt" in
  exists d1,
    saveFile 3 obliging a draft = Some (true, d1)
    /\ lookup (disk d1) "notes.txt" = Some (text_of_string "Hi there")
    /\ exists d2,
         saveFile 1 obliging a d1 = Some (true, d2)
         /\ window d2 = window d1
         /\ shown d2 = shown d1
         /\ forall name, lookup (disk d2) name = lookup (disk d1) name.
Proof.
  intros a. eexists. split; [reflexivity|]. split; [reflexivity|].
  exact (saveFile_twice 3 1 obliging obliging a a draft _
           eq_refl (le_n 1) eq_refl eq_refl).
Defined.
